(** * tap-em: a shallow embedding of [tapem.py]

    The program reads a stream of TAP (Test Anything Protocol) lines,
    echoes them, records results and protocol errors in a [Tapper]
    object, and derives a summary and an exit code.

    Organisation of this development:
    - [Py]: the Python built-ins the program relies on ([str.strip],
      [str.split], [str.replace], [in], [int], [str.format] on
      integers), over strings as lists of Unicode code points;
    - [Tap]: the [Tapper] class, method by method, in a state and
      exception monad (Python mutates [self] in place and an exception
      leaves the mutations done so far);
    - the theorems about the program. *)

From Stdlib Require Import Decimal DecimalNat DecimalZ.
From Stdlib Require Import ZArith NArith Bool Lia String Ascii List.
Import ListNotations.

Set Implicit Arguments.

(* ================================================================== *)
(** * Python built-ins *)
(* ================================================================== *)

Module Py.

(** A Python [str] is a sequence of Unicode code points. *)
Definition char := N.
Definition str := list char.

(** ASCII literals of the source text. *)
Definition lit (s : string) : str :=
  List.map N_of_ascii (list_ascii_of_string s).

Fixpoint str_eqb (s t : str) : bool :=
  match s, t with
  | [], [] => true
  | c :: s', d :: t' => N.eqb c d && str_eqb s' t'
  | _, _ => false
  end.

(** [str.isspace] for one code point: the characters [strip()] and
    [split()] treat as whitespace. *)
Definition isspace (c : char) : bool :=
  (((9 <=? c) && (c <=? 13)) || ((28 <=? c) && (c <=? 32))
   || (c =? 133) || (c =? 160) || (c =? 5760)
   || ((8192 <=? c) && (c <=? 8202))
   || (c =? 8232) || (c =? 8233) || (c =? 8239) || (c =? 8287)
   || (c =? 12288))%N.

(** [s.lstrip()], [s.rstrip()], [s.strip()]. *)
Fixpoint lstrip (s : str) : str :=
  match s with
  | [] => []
  | c :: s' => if isspace c then lstrip s' else s
  end.

Fixpoint rstrip (s : str) : str :=
  match s with
  | [] => []
  | c :: s' =>
      match rstrip s' with
      | [] => if isspace c then [] else [c]
      | r => c :: r
      end
  end.

Definition strip (s : str) : str := rstrip (lstrip s).

(** [s.split()]: the maximal runs of non-whitespace characters.
    [cur] holds the token being read, reversed. *)
Fixpoint split_from (cur : str) (s : str) : list str :=
  match s with
  | [] => match cur with [] => [] | _ => [rev cur] end
  | c :: s' =>
      if isspace c
      then match cur with
           | [] => split_from [] s'
           | _ => rev cur :: split_from [] s'
           end
      else split_from (c :: cur) s'
  end.

Definition split (s : str) : list str := split_from [] s.

(** [s.startswith(p)]. *)
Fixpoint startswith (p s : str) : bool :=
  match p, s with
  | [], _ => true
  | a :: p', b :: s' => N.eqb a b && startswith p' s'
  | _ :: _, [] => false
  end.

(** [p in s] for strings: [p] occurs in [s]. *)
Fixpoint contains (p s : str) : bool :=
  startswith p s ||
  match s with
  | [] => false
  | _ :: s' => contains p s'
  end.

(** [s.replace(old, new)]: every non-overlapping occurrence of [old],
    scanning from the left.  [skip] counts the characters of a matched
    occurrence still to be passed over.  For an empty [old] Python puts
    [new] before every character and at the end. *)
Fixpoint replace_from (old new : str) (skip : nat) (s : str) : str :=
  match s with
  | [] => []
  | c :: s' =>
      match skip with
      | S k => replace_from old new k s'
      | O =>
          if startswith old s
          then new ++ replace_from old new (length old - 1) s'
          else c :: replace_from old new 0 s'
      end
  end.

Definition replace (old new s : str) : str :=
  match old with
  | [] => new ++ flat_map (fun c => c :: new) s
  | _ => replace_from old new 0 s
  end.

(** [str(n)] for an integer: its decimal representation. *)
Fixpoint uint_chars (d : Decimal.uint) : str :=
  match d with
  | Nil => []
  | D0 d => 48%N :: uint_chars d
  | D1 d => 49%N :: uint_chars d
  | D2 d => 50%N :: uint_chars d
  | D3 d => 51%N :: uint_chars d
  | D4 d => 52%N :: uint_chars d
  | D5 d => 53%N :: uint_chars d
  | D6 d => 54%N :: uint_chars d
  | D7 d => 55%N :: uint_chars d
  | D8 d => 56%N :: uint_chars d
  | D9 d => 57%N :: uint_chars d
  end.

Definition str_of_int (z : Z) : str :=
  match Z.to_int z with
  | Pos d => uint_chars d
  | Neg d => 45%N :: uint_chars d
  end.

(** ** [int(s)] for a string

    CPython first maps the string to ASCII: ASCII characters are kept,
    other whitespace becomes a space, other decimal digits become the
    ASCII digit of their value, anything else becomes a question mark.
    The ASCII text is then read as: whitespace, an optional sign,
    digits with single underscores between them, whitespace.  The
    decimal-digit table of the Unicode database for the non-ASCII
    code points is the interpreter's; it is a parameter here. *)
Section Int.

Variable unicode_decimal : char -> option N.

Definition to_ascii (c : char) : char :=
  if (c <? 127)%N then c
  else if isspace c then 32%N
  else match unicode_decimal c with
       | Some d => (48 + d)%N
       | None => 63%N
       end.

(** The whitespace of the C locale, which the ASCII reader skips. *)
Definition c_isspace (c : char) : bool :=
  (((9 <=? c) && (c <=? 13)) || (c =? 32))%N.

Definition digit_cons (c : char) : option (Decimal.uint -> Decimal.uint) :=
  (if c =? 48 then Some D0 else if c =? 49 then Some D1
   else if c =? 50 then Some D2 else if c =? 51 then Some D3
   else if c =? 52 then Some D4 else if c =? 53 then Some D5
   else if c =? 54 then Some D6 else if c =? 55 then Some D7
   else if c =? 56 then Some D8 else if c =? 57 then Some D9
   else None)%N.

(** The digits, from the first one on.  [need] holds where a digit
    must come next: at the start and after an underscore. *)
Fixpoint int_digits (need : bool) (s : str) : option Decimal.uint :=
  match s with
  | [] => if need then None else Some Nil
  | c :: s' =>
      match digit_cons c with
      | Some k => option_map k (int_digits false s')
      | None =>
          if need then None
          else if (c =? 95)%N then int_digits true s'
          else if forallb c_isspace s then Some Nil
          else None
      end
  end.

Fixpoint skip_c_space (s : str) : str :=
  match s with
  | [] => []
  | c :: s' => if c_isspace c then skip_c_space s' else s
  end.

(** [int(s)]; [None] stands for [ValueError]. *)
Definition int (s : str) : option Z :=
  match skip_c_space (List.map to_ascii s) with
  | c :: s' =>
      if (c =? 43)%N then option_map Z.of_uint (int_digits true s')
      else if (c =? 45)%N
           then option_map (fun d => Z.opp (Z.of_uint d)) (int_digits true s')
           else option_map Z.of_uint (int_digits true (c :: s'))
  | [] => None
  end.

End Int.

(** A digit table with no entry: enough for ASCII input, on which
    [int] never consults the table. *)
Definition ascii_only : char -> option N := fun _ => None.

End Py.

Import Py.

(* ================================================================== *)
(** * The program *)
(* ================================================================== *)

Module Tap.

(** The keys of the two glyph dictionaries, and a dictionary. *)
Inductive key :=
| success | failure | tap | tap_error
| great_success | disaster | catastrophe | attention.

Definition theme := key -> str.

(** Elements of [self.numbers]: [found_number] keeps the raw token
    when it is no integer, so the list mixes [int] and [str] objects;
    an [int] never equals a [str]. *)
Inductive value :=
| VInt (n : Z)
| VStr (s : str).

Definition value_eqb (v w : value) : bool :=
  match v, w with
  | VInt n, VInt m => Z.eqb n m
  | VStr s, VStr t => str_eqb s t
  | _, _ => false
  end.

(** ["{}".format(v)] *)
Definition format (v : value) : str :=
  match v with
  | VInt n => str_of_int n
  | VStr s => s
  end.

(** [v in l] on a list of values, and on the list of integers
    [self.range]. *)
Definition value_in (v : value) (l : list value) : bool :=
  existsb (value_eqb v) l.

Definition in_range (v : value) (r : list Z) : bool :=
  match v with
  | VInt n => existsb (Z.eqb n) r
  | VStr _ => false
  end.

(** The attributes of a [Tapper] object.  [stdout] is not one of
    them: it is the text [print] has written so far, threaded along
    with the object. *)
Record Tapper := mkTapper {
  errors : list str;
  successes : list str;
  results : list str;
  numbers : list value;
  range : list Z;
  tap_errors : list str;
  error_count : Z;
  emoji : theme;
  ascii : theme;
  stdout : str
}.

Definition with_errors (f : list str -> list str) (t : Tapper) : Tapper :=
  mkTapper (f (errors t)) (successes t) (results t) (numbers t) (range t)
           (tap_errors t) (error_count t) (emoji t) (ascii t) (stdout t).

Definition with_successes (f : list str -> list str) (t : Tapper) : Tapper :=
  mkTapper (errors t) (f (successes t)) (results t) (numbers t) (range t)
           (tap_errors t) (error_count t) (emoji t) (ascii t) (stdout t).

Definition with_results (f : list str -> list str) (t : Tapper) : Tapper :=
  mkTapper (errors t) (successes t) (f (results t)) (numbers t) (range t)
           (tap_errors t) (error_count t) (emoji t) (ascii t) (stdout t).

Definition with_numbers (f : list value -> list value) (t : Tapper) : Tapper :=
  mkTapper (errors t) (successes t) (results t) (f (numbers t)) (range t)
           (tap_errors t) (error_count t) (emoji t) (ascii t) (stdout t).

Definition with_range (f : list Z -> list Z) (t : Tapper) : Tapper :=
  mkTapper (errors t) (successes t) (results t) (numbers t) (f (range t))
           (tap_errors t) (error_count t) (emoji t) (ascii t) (stdout t).

Definition with_tap_errors (f : list str -> list str) (t : Tapper) : Tapper :=
  mkTapper (errors t) (successes t) (results t) (numbers t) (range t)
           (f (tap_errors t)) (error_count t) (emoji t) (ascii t) (stdout t).

Definition with_error_count (n : Z) (t : Tapper) : Tapper :=
  mkTapper (errors t) (successes t) (results t) (numbers t) (range t)
           (tap_errors t) n (emoji t) (ascii t) (stdout t).

Definition with_emoji (e : theme) (t : Tapper) : Tapper :=
  mkTapper (errors t) (successes t) (results t) (numbers t) (range t)
           (tap_errors t) (error_count t) e (ascii t) (stdout t).

Definition with_stdout (f : str -> str) (t : Tapper) : Tapper :=
  mkTapper (errors t) (successes t) (results t) (numbers t) (range t)
           (tap_errors t) (error_count t) (emoji t) (ascii t) (f (stdout t)).

(** ** Statements: state passing with exceptions

    A method is a function from the object to an outcome and the
    object as the method left it; a raised exception keeps every
    mutation made before it. *)
Inductive exn := IndexError | ValueError | AssertionError.

Inductive outcome (A : Type) :=
| Return (a : A)
| Raise (e : exn).
Arguments Return {A} a.
Arguments Raise {A} e.

Definition M (A : Type) := Tapper -> outcome A * Tapper.

Definition ret {A} (a : A) : M A := fun t => (Return a, t).
Definition raise {A} (e : exn) : M A := fun t => (Raise e, t).
Definition bind {A B} (c : M A) (k : A -> M B) : M B :=
  fun t => match c t with
           | (Return a, t') => k a t'
           | (Raise e, t') => (Raise e, t')
           end.
Definition gets {A} (f : Tapper -> A) : M A := fun t => (Return (f t), t).
Definition modify (f : Tapper -> Tapper) : M unit := fun t => (Return tt, f t).

Notation "x <- c ;; k" := (bind c (fun x => k))
  (at level 61, c at next level, right associativity).
Notation "c ;; k" := (bind c (fun _ => k))
  (at level 61, right associativity).

(** [for x in l: body(x)] *)
Fixpoint for_each {A} (l : list A) (body : A -> M unit) : M unit :=
  match l with
  | [] => ret tt
  | x :: l' => body x ;; for_each l' body
  end.

(** [l[i]], which raises [IndexError] out of range. *)
Definition index {A} (l : list A) (i : nat) : M A :=
  match nth_error l i with
  | Some x => ret x
  | None => raise IndexError
  end.

(** [assert b] *)
Definition assert (b : bool) : M unit :=
  if b then ret tt else raise AssertionError.

(** [print(s)] and [print(s, end="")] *)
Definition print (s : str) : M unit :=
  modify (with_stdout (fun o => o ++ s ++ [10%N])).
Definition print_noend (s : str) : M unit :=
  modify (with_stdout (fun o => o ++ s)).

(** [range(a, b)] as the list it iterates over. *)
Definition py_range (a b : Z) : list Z :=
  List.map (fun i => (a + Z.of_nat i)%Z) (seq 0 (Z.to_nat (b - a))).

(** ** The two dictionaries of [__init__] *)
Definition emoji_table : theme := fun k =>
  match k with
  | success => [9989%N]                 (* U+2705 *)
  | failure => [10060%N]                (* U+274C *)
  | tap => [128688%N]                   (* U+1F6B0 *)
  | tap_error => [128689%N]             (* U+1F6B1 *)
  | great_success => [10084%N; 65039%N] (* U+2764 U+FE0F *)
  | disaster => [128293%N]              (* U+1F525 *)
  | catastrophe => [128165%N]           (* U+1F4A5 *)
  | attention => [9888%N; 65039%N]      (* U+26A0 U+FE0F *)
  end.

Definition ascii_table : theme := fun k =>
  match k with
  | success => lit ":-)"
  | failure => lit ":-("
  | tap => lit "^.^"
  | tap_error => lit "o.O"
  | great_success => lit "<3 "
  | disaster => lit ">.<"
  | catastrophe => lit "v.v"
  | attention => lit "!! "
  end.

(** [prefixed(string, emoji)] *)
Definition prefixed (string emoji : str) : str :=
  emoji ++ lit "  | " ++ string.

(** [Tapper()] *)
Definition init : Tapper :=
  mkTapper [] [] [] [] [] [] (-1) emoji_table ascii_table [].

Section Methods.

(** The interpreter's decimal-digit table for non-ASCII code points,
    see [Py.int]. *)
Variable unicode_decimal : char -> option N.

Definition set_ascii : M unit :=
  a <- gets ascii ;;
  modify (with_emoji a).

Definition tap_errors_append (msg : str) : M unit :=
  modify (with_tap_errors (fun l => l ++ [msg])).

Definition found_number (tok : str) : M unit :=
  num <- match int unicode_decimal tok with
         | Some n => ret (VInt n)
         | None =>
             tap_errors_append (lit "Invalid test number: '" ++ tok ++ lit "'") ;;
             ret (VStr tok)
         end ;;
  r <- gets range ;;
  (if Nat.eqb (length r) 0
   then tap_errors_append (lit "No test range defined before result no. "
                   ++ format num)
   else if negb (in_range num r)
        then tap_errors_append (lit "Test result " ++ format num
                        ++ lit " doesn't fit into any previous range")
        else ret tt) ;;
  ns <- gets numbers ;;
  if value_in num ns
  then tap_errors_append (lit "Multiple results for test no. " ++ format num)
  else modify (with_numbers (fun l => l ++ [num])).

(** [int(s)] as a statement: [ValueError] when [s] is no integer. *)
Definition to_int (s : str) : M Z :=
  match int unicode_decimal s with
  | Some n => ret n
  | None => raise ValueError
  end.

(** The body of the loop of [maybe_range]. *)
Definition maybe_range_body (word : str) (num : Z) : M unit :=
  r <- gets range ;;
  if negb (existsb (Z.eqb num) r)
  then modify (with_range (fun l => l ++ [num]))
  else tap_errors_append (lit "Overlapping range '" ++ word ++ lit "' at '"
                          ++ str_of_int num ++ lit "'").

Definition maybe_range (word : str) : M unit :=
  let processed := replace (lit "..") (lit " ") word in
  print processed ;;
  if contains (lit ".") processed then ret tt
  else
    let parts := split processed in
    if negb (Nat.eqb (length parts) 2) then ret tt
    else
      p0 <- index parts 0 ;;
      a <- to_int p0 ;;
      p1 <- index parts 1 ;;
      b <- to_int p1 ;;
      if (a >? b)%Z
      then tap_errors_append (lit "Invalid range: " ++ word)
      else
        for_each (py_range a (b + 1)) (maybe_range_body word).

Definition process_line (line : str) : M unit :=
  emoji <- gets emoji ;;
  let stripped := strip line in
  nr <- (if startswith (lit "ok") stripped
         then
           number <- index (split stripped) 1 ;;
           let result := prefixed stripped (emoji success) in
           modify (with_successes (fun l => l ++ [result])) ;;
           ret (Some number, Some result)
         else if startswith (lit "not ok") stripped
         then
           number <- index (split stripped) 2 ;;
           let result := prefixed stripped (emoji failure) in
           modify (with_errors (fun l => l ++ [result])) ;;
           ret (Some number, Some result)
         else ret (None, None)) ;;
  match snd nr with
  | Some result => modify (with_results (fun l => l ++ [result]))
  | None => ret tt
  end ;;
  match fst nr with
  | Some number => found_number number
  | None => ret tt
  end ;;
  match split stripped with
  | first :: _ =>
      if contains (lit "..") first then maybe_range first else ret tt
  | [] => ret tt
  end ;;
  print_noend line.

(** [drain] on the lines its input delivers (standard input, the file
    or [line_list]), in order. *)
Definition drain (lines : list str) : M unit :=
  for_each lines process_line.

End Methods.

Definition finalize : M unit :=
  errors <- gets (fun t => length (errors t)) ;;
  numbers <- gets (fun t => length (numbers t)) ;;
  results <- gets (fun t => length (results t)) ;;
  test_range <- gets (fun t => length (range t)) ;;
  (if Nat.leb test_range 0
   then tap_errors_append (lit "No test range found") else ret tt) ;;
  (if Nat.leb results 0
   then tap_errors_append (lit "No test results found") else ret tt) ;;
  (if Nat.ltb test_range numbers || Nat.ltb test_range results
   then tap_errors_append
          (lit "More test results than possible for test range: "
           ++ str_of_int (Z.of_nat (Nat.max numbers results)) ++ lit "/"
           ++ str_of_int (Z.of_nat test_range))
   else ret tt) ;;
  n <- gets (fun t => length (tap_errors t)) ;;
  modify (with_error_count (Z.of_nat errors + Z.of_nat n)).

(** [summarize], as the list of the lines the generator yields when
    it is consumed to its end.  The reassignment of [self.tap_errors]
    and the assertion come before the first [yield]. *)
Definition nonempty {A} (l : list A) : bool :=
  match l with [] => false | _ => true end.

Definition summarize : M (list str) :=
  emoji <- gets emoji ;;
  modify (with_tap_errors
            (List.map (fun x => prefixed x (emoji disaster)))) ;;
  ec <- gets error_count ;;
  assert (0 <=? ec)%Z ;;
  t <- gets (fun t => t) ;;
  let summary :=
    str_of_int (Z.of_nat (length (successes t))) ++ lit " ok  |  "
    ++ str_of_int (Z.of_nat (length (errors t))) ++ lit " not ok  |  "
    ++ str_of_int (Z.of_nat (length (tap_errors t))) ++ lit " tap errors" in
  let emoji_summary :=
    replace (lit "tap errors") (emoji tap_error)
      (replace (lit "ok") (emoji success)
         (replace (lit "not ok") (emoji failure) summary)) in
  ret
    ((if nonempty (results t)
      then [] :: prefixed (lit "TAP Test results:") (emoji tap) :: results t
      else [])
     ++ (if nonempty (errors t)
         then [] :: prefixed (lit "Test failures: ") (emoji attention)
                 :: errors t
         else [])
     ++ (if nonempty (tap_errors t)
         then prefixed (lit "Protocol error(s) were found:") (emoji attention)
              :: tap_errors t
         else [])
     ++ [ [] ; lit "Summary: " ++ summary ;
          if (error_count t =? 0)%Z
          then prefixed (lit "All tests successful - " ++ emoji_summary)
                        (emoji great_success)
          else
            let all_failed :=
              negb (nonempty (successes t))
              && Nat.eqb (length (results t)) (length (range t)) in
            let some_all := if all_failed then lit "All" else lit "Some" in
            let failure_message :=
              some_all ++ lit " tests failed - " ++ emoji_summary in
            let fail_emoji :=
              if nonempty (tap_errors t) || negb (nonempty (successes t))
              then emoji catastrophe else emoji disaster in
            prefixed failure_message fail_emoji ]).

Definition exit_code : M Z :=
  ec <- gets error_count ;;
  assert (0 <=? ec)%Z ;;
  ret (Z.min ec 100).

(** The script: [--ascii] selects the ASCII table, the input is
    drained, and the summary is printed line by line; the value is the
    argument of [sys.exit]. *)
Definition main (unicode_decimal : char -> option N)
    (ascii_flag : bool) (lines : list str) : M Z :=
  (if ascii_flag then set_ascii else ret tt) ;;
  drain unicode_decimal lines ;;
  finalize ;;
  summary <- summarize ;;
  for_each summary print ;;
  exit_code.

End Tap.

Import Tap.

Local Open Scope Z_scope.

(* ================================================================== *)
(** * [finalize], [exit_code] and [summarize] on an arbitrary object *)
(* ================================================================== *)

(** Unfolding of the monad's operations, and of the attribute
    updates and reads. *)
Ltac run_monad :=
  cbv beta iota delta [bind gets modify ret raise tap_errors_append
                       print print_noend assert].

Tactic Notation "run_monad" "in" hyp(H) :=
  cbv beta iota delta [bind gets modify ret raise tap_errors_append
                       print print_noend assert] in H.

Ltac fields :=
  cbv beta iota delta [with_errors with_successes with_results with_numbers
                       with_range with_tap_errors with_error_count with_emoji
                       with_stdout errors successes results numbers range
                       tap_errors error_count emoji ascii stdout fst snd].

(** The messages [finalize] appends on a given object. *)
Definition finalize_messages (t : Tapper) : list str :=
  (if Nat.leb (length (range t)) 0
   then [lit "No test range found"] else [])
  ++ (if Nat.leb (length (results t)) 0
      then [lit "No test results found"] else [])
  ++ (if Nat.ltb (length (range t)) (length (numbers t))
         || Nat.ltb (length (range t)) (length (results t))
      then [lit "More test results than possible for test range: "
            ++ str_of_int (Z.of_nat (Nat.max (length (numbers t))
                                             (length (results t))))
            ++ lit "/" ++ str_of_int (Z.of_nat (length (range t)))]
      else []).

(** [finalize] never raises, appends [finalize_messages] and sets
    [error_count]; it touches nothing else. *)
Lemma finalize_run (t : Tapper) :
  finalize t =
  (Return tt,
   with_error_count
     (Z.of_nat (length (errors t))
      + Z.of_nat (length (tap_errors t ++ finalize_messages t)))
     (with_tap_errors (fun l => l ++ finalize_messages t) t)).
Proof.
  unfold finalize, finalize_messages.
  destruct t as [e s r n rg te ec em asc out].
  run_monad; fields.
  destruct (Nat.leb (length rg) 0), (Nat.leb (length r) 0),
    (Nat.ltb (length rg) (length n) || Nat.ltb (length rg) (length r))%bool;
    fields; rewrite <- ?app_assoc; cbn [app]; rewrite ?app_nil_r;
    reflexivity.
Qed.

Lemma finalize_messages_stable (t : Tapper) :
  finalize_messages (snd (finalize t)) = finalize_messages t.
Proof. rewrite finalize_run. destruct t; reflexivity. Qed.

(** [exit_code] on an object whose [error_count] is set. *)
Lemma exit_code_run (t : Tapper) :
  0 <= error_count t ->
  exit_code t = (Return (Z.min (error_count t) 100), t).
Proof.
  intros H. unfold exit_code. run_monad.
  destruct (Z.leb_spec 0 (error_count t)); [reflexivity | lia].
Qed.

Lemma finalize_error_count (t : Tapper) :
  error_count (snd (finalize t)) =
  Z.of_nat (length (errors (snd (finalize t))))
  + Z.of_nat (length (tap_errors (snd (finalize t)))).
Proof. rewrite finalize_run. destruct t; reflexivity. Qed.

(** C3: on every finalized object [exit_code] returns
    [min(error_count, 100)], a number between 0 and 100, where
    [error_count] is the number of failures plus the number of
    protocol errors; when that count exceeds 100 the exit code is
    exactly 100. *)
Theorem exit_code_clamped (t0 : Tapper) :
  let t := snd (finalize t0) in
  fst (finalize t0) = Return tt
  /\ error_count t
     = Z.of_nat (length (errors t)) + Z.of_nat (length (tap_errors t))
  /\ exit_code t = (Return (Z.min (error_count t) 100), t)
  /\ 0 <= Z.min (error_count t) 100 <= 100
  /\ (100 < error_count t -> exit_code t = (Return 100, t)).
Proof.
  intros t.
  assert (Hc : error_count t
               = Z.of_nat (length (errors t))
                 + Z.of_nat (length (tap_errors t)))
    by apply finalize_error_count.
  assert (H0 : 0 <= error_count t) by lia.
  split; [rewrite finalize_run; reflexivity|].
  split; [exact Hc|].
  split; [apply exit_code_run; exact H0|].
  split; [lia|].
  intros H. rewrite exit_code_run by exact H0. f_equal. f_equal. lia.
Qed.

(** ** A second [finalize] *)

Lemma finalize_twice (t : Tapper) :
  let t1 := snd (finalize t) in
  let t2 := snd (finalize t1) in
  tap_errors t1 = tap_errors t ++ finalize_messages t
  /\ tap_errors t2 = tap_errors t1 ++ finalize_messages t
  /\ error_count t2
     = error_count t1 + Z.of_nat (length (finalize_messages t)).
Proof.
  cbv zeta. rewrite (finalize_run (snd (finalize t))).
  rewrite finalize_messages_stable. rewrite finalize_run.
  destruct t as [e s r n rg te ec em asc out]. fields.
  repeat split. rewrite !length_app. lia.
Qed.

(** C6 (amended): a second [finalize] appends once more the messages
    the first one appended and raises [error_count] by their number;
    [error_count] and the protocol errors are unchanged exactly when
    the first [finalize] had nothing to report, that is when the range
    is not empty, there is a result, and neither the results nor the
    seen numbers outnumber the range. *)
Theorem finalize_again (t : Tapper) :
  let t1 := snd (finalize t) in
  let t2 := snd (finalize t1) in
  tap_errors t2 = tap_errors t1 ++ finalize_messages t
  /\ error_count t2
     = error_count t1 + Z.of_nat (length (finalize_messages t))
  /\ (error_count t2 = error_count t1 <-> finalize_messages t = [])
  /\ (finalize_messages t = [] <->
      (0 < length (range t) /\ 0 < length (results t)
       /\ length (numbers t) <= length (range t)
       /\ length (results t) <= length (range t))%nat)
  /\ (finalize_messages t = [] -> t2 = t1).
Proof.
  intros t1 t2. destruct (finalize_twice t) as (H1 & H2 & H3).
  fold t1 in H1, H2, H3. fold t2 in H2, H3.
  split; [exact H2|]. split; [exact H3|].
  split.
  { rewrite H3. split; intros H.
    - destruct (finalize_messages t); [reflexivity | cbn in H; lia].
    - rewrite H. cbn. lia. }
  split.
  { unfold finalize_messages.
    destruct (Nat.leb_spec (length (range t)) 0);
      destruct (Nat.leb_spec (length (results t)) 0);
      destruct (Nat.ltb_spec (length (range t)) (length (numbers t)));
      destruct (Nat.ltb_spec (length (range t)) (length (results t)));
      cbn [orb app]; split; intros Hm; try discriminate Hm;
      try reflexivity; lia. }
  intros H. subst t2 t1. rewrite (finalize_run (snd (finalize t))).
  rewrite finalize_messages_stable, H. rewrite finalize_run, H.
  destruct t; fields. rewrite !app_nil_r. reflexivity.
Qed.

(** ** [summarize] and the object *)

Lemma summarize_state (t : Tapper) :
  snd (summarize t)
  = with_tap_errors
      (List.map (fun x => prefixed x (emoji t disaster))) t.
Proof.
  unfold summarize. run_monad.
  destruct t as [e s r n rg te ec em asc out]; fields.
  destruct (0 <=? ec); reflexivity.
Qed.

Lemma summarize_returns (t : Tapper) :
  0 <= error_count t -> exists lines, fst (summarize t) = Return lines.
Proof.
  intros H. unfold summarize. run_monad.
  destruct t as [e s r n rg te ec em asc out]; fields.
  cbn [error_count] in H.
  destruct (Z.leb_spec 0 ec); [|lia]. cbn [fst]. eexists. reflexivity.
Qed.

(** C8 (amended): on a finalized object [summarize] returns its lines
    and leaves every attribute as it was except [tap_errors], whose
    entries it replaces by their prefixed form (as many entries as
    before); when no protocol error was recorded the object is
    unchanged and a second [summarize] yields the same lines. *)
Theorem summarize_frame (t0 : Tapper) :
  let t := snd (finalize t0) in
  (exists lines, fst (summarize t) = Return lines)
  /\ snd (summarize t)
     = with_tap_errors
         (List.map (fun x => prefixed x (emoji t disaster))) t
  /\ length (tap_errors (snd (summarize t))) = length (tap_errors t)
  /\ (tap_errors t = [] ->
      snd (summarize t) = t
      /\ summarize (snd (summarize t)) = summarize t).
Proof.
  intros t.
  assert (H0 : 0 <= error_count t).
  { unfold t. rewrite finalize_error_count. lia. }
  split; [apply summarize_returns; exact H0|].
  split; [apply summarize_state|].
  split.
  { rewrite summarize_state. destruct t; fields. apply length_map. }
  intros Hn.
  assert (Hs : snd (summarize t) = t).
  { rewrite summarize_state. destruct t; fields.
    cbn [tap_errors] in Hn. rewrite Hn. reflexivity. }
  split; [exact Hs|]. rewrite Hs. reflexivity.
Qed.

(* ================================================================== *)
(** * The streaming phase *)
(* ================================================================== *)

(** ** Equality tests *)

Lemma str_eqb_eq (s u : str) : str_eqb s u = true <-> s = u.
Proof.
  revert u. induction s as [|c s IH]; intros [|d u]; cbn;
    try (split; [discriminate | intros H; discriminate H]);
    try (split; reflexivity).
  rewrite andb_true_iff, N.eqb_eq, IH. split.
  - intros [-> ->]. reflexivity.
  - intros H. injection H as -> ->. split; reflexivity.
Qed.

Lemma value_eqb_eq (v w : value) : value_eqb v w = true <-> v = w.
Proof.
  destruct v as [n|s], w as [m|u]; cbn;
    try (split; [discriminate | intros H; discriminate H]).
  - rewrite Z.eqb_eq. split; [intros ->; reflexivity | intros H; injection H; auto].
  - rewrite str_eqb_eq. split; [intros ->; reflexivity | intros H; injection H; auto].
Qed.

Lemma value_in_In (v : value) (l : list value) :
  value_in v l = true <-> In v l.
Proof.
  unfold value_in. rewrite existsb_exists. split.
  - intros (w & Hw & He). apply value_eqb_eq in He. subst. exact Hw.
  - intros H. exists v. split; [exact H | apply value_eqb_eq; reflexivity].
Qed.

Lemma int_in_In (n : Z) (l : list Z) :
  existsb (Z.eqb n) l = true <-> In n l.
Proof.
  rewrite existsb_exists. split.
  - intros (m & Hm & He). apply Z.eqb_eq in He. subst. exact Hm.
  - intros H. exists n. split; [exact H | apply Z.eqb_refl].
Qed.

(** ** Properties kept by every statement

    [keeps P c]: statement [c] leads from an object with [P] to an
    object with [P], whether it returns or raises. *)
Definition keeps {A} (P : Tapper -> Prop) (c : M A) : Prop :=
  forall t, P t -> P (snd (c t)).

Lemma keeps_ret {A} P (a : A) : keeps P (ret a).
Proof. intros t H. exact H. Qed.

Lemma keeps_raise {A} P e : keeps P (@raise A e).
Proof. intros t H. exact H. Qed.

Lemma keeps_gets {A} P (f : Tapper -> A) : keeps P (gets f).
Proof. intros t H. exact H. Qed.

Lemma keeps_bind {A B} P (c : M A) (k : A -> M B) :
  keeps P c -> (forall a, keeps P (k a)) -> keeps P (bind c k).
Proof.
  intros Hc Hk t H. unfold bind. specialize (Hc t H).
  destruct (c t) as [[a|e] t']; cbn [snd] in *.
  - apply Hk. exact Hc.
  - exact Hc.
Qed.

Lemma keeps_modify P (f : Tapper -> Tapper) :
  (forall t, P t -> P (f t)) -> keeps P (modify f).
Proof. intros Hf t H. apply Hf. exact H. Qed.

Lemma keeps_for_each {A} P (l : list A) (body : A -> M unit) :
  (forall x, keeps P (body x)) -> keeps P (for_each l body).
Proof.
  intros Hb. induction l as [|x l IH]; cbn [for_each].
  - apply keeps_ret.
  - apply keeps_bind; [apply Hb | intros _; exact IH].
Qed.

Lemma keeps_index {A} P (l : list A) i : keeps P (index l i).
Proof.
  unfold index. destruct (nth_error l i); [apply keeps_ret | apply keeps_raise].
Qed.

Lemma keeps_if {A} P (b : bool) (c d : M A) :
  keeps P c -> keeps P d -> keeps P (if b then c else d).
Proof. destruct b; auto. Qed.

Create HintDb keeps.
#[local] Hint Resolve keeps_ret keeps_raise keeps_gets keeps_modify
  keeps_for_each keeps_index keeps_if : keeps.

(** Steps through the binds of a statement. *)
Ltac keeps_step :=
  repeat first
    [ solve [auto with keeps]
    | progress cbv zeta
    | apply keeps_bind; [|intros ?]
    | apply keeps_if
    | apply keeps_for_each; intros ? ].

Lemma keeps_gets_bind {A B} P (f : Tapper -> A) (k : A -> M B) :
  (forall t, P t -> P (snd (k (f t) t))) -> keeps P (bind (gets f) k).
Proof. intros H t Ht. apply H. exact Ht. Qed.

Lemma NoDup_snoc {A} (l : list A) (x : A) :
  NoDup l -> ~ In x l -> NoDup (l ++ [x]).
Proof.
  intros Hl Hx. induction Hl as [|y l Hy Hl IH]; cbn.
  - constructor; [intros [] | constructor].
  - constructor.
    + rewrite in_app_iff. cbn. intros [H|[H|[]]]; [auto|].
      subst. apply Hx. left. reflexivity.
    + apply IH. intros H. apply Hx. right. exact H.
Qed.

Section Streaming.

Variable ud : char -> option N.

(** ** No duplicates in [numbers] and [range] *)

Definition no_dup (t : Tapper) : Prop :=
  NoDup (numbers t) /\ NoDup (range t).

Lemma keeps_no_dup_tap_errors_append msg : keeps no_dup (tap_errors_append msg).
Proof. apply keeps_modify. intros [] H. exact H. Qed.

Lemma keeps_no_dup_print s : keeps no_dup (print s).
Proof. apply keeps_modify. intros [] H. exact H. Qed.

Lemma keeps_no_dup_print_noend s : keeps no_dup (print_noend s).
Proof. apply keeps_modify. intros [] H. exact H. Qed.

Lemma keeps_no_dup_record f :
  keeps no_dup (modify (with_errors f))
  /\ keeps no_dup (modify (with_successes f))
  /\ keeps no_dup (modify (with_results f)).
Proof. split; [|split]; apply keeps_modify; intros [] H; exact H. Qed.

Lemma keeps_no_dup_with_errors f : keeps no_dup (modify (with_errors f)).
Proof. apply keeps_no_dup_record. Qed.

Lemma keeps_no_dup_with_successes f :
  keeps no_dup (modify (with_successes f)).
Proof. apply keeps_no_dup_record. Qed.

Lemma keeps_no_dup_with_results f : keeps no_dup (modify (with_results f)).
Proof. apply keeps_no_dup_record. Qed.

#[local] Hint Resolve keeps_no_dup_tap_errors_append keeps_no_dup_print
  keeps_no_dup_print_noend keeps_no_dup_with_errors
  keeps_no_dup_with_successes keeps_no_dup_with_results : keeps.

Lemma keeps_no_dup_found_number tok : keeps no_dup (found_number ud tok).
Proof.
  unfold found_number.
  apply keeps_bind.
  { destruct (int ud tok); keeps_step. }
  intros num. apply keeps_bind; [auto with keeps|]. intros r.
  apply keeps_bind; [keeps_step|]. intros _.
  apply keeps_gets_bind. intros t [Hn Hr].
  destruct (value_in num (numbers t)) eqn:E.
  - destruct t; split; assumption.
  - destruct t as [e s rs n rg te ec em asc out]; cbn [numbers] in *.
    split; [|exact Hr]. cbn. apply NoDup_snoc; [exact Hn|].
    rewrite <- value_in_In, E. discriminate.
Qed.

Lemma keeps_no_dup_maybe_range_body word num :
  keeps no_dup (maybe_range_body word num).
Proof.
  unfold maybe_range_body. apply keeps_gets_bind. intros t [Hn Hr].
  destruct (existsb (Z.eqb num) (range t)) eqn:E; cbn [negb].
  - destruct t; split; assumption.
  - destruct t as [e s rs n rg te ec em asc out]; cbn [range] in *.
    split; [exact Hn|]. cbn. apply NoDup_snoc; [exact Hr|].
    rewrite <- int_in_In, E. discriminate.
Qed.

Lemma keeps_to_int P s : keeps P (to_int ud s).
Proof. unfold to_int. destruct (int ud s); auto with keeps. Qed.

#[local] Hint Resolve keeps_no_dup_found_number keeps_no_dup_maybe_range_body
  keeps_to_int : keeps.

Lemma keeps_no_dup_maybe_range word : keeps no_dup (maybe_range ud word).
Proof. unfold maybe_range. keeps_step. Qed.

#[local] Hint Resolve keeps_no_dup_maybe_range : keeps.

Lemma keeps_no_dup_process_line line : keeps no_dup (process_line ud line).
Proof.
  unfold process_line. keeps_step.
  - destruct (snd a0); auto with keeps.
  - destruct (fst a0); auto with keeps.
  - destruct (split (strip line)); keeps_step.
Qed.

Lemma no_dup_init : no_dup init.
Proof. split; constructor. Qed.

(** The value [found_number] works with after its [try]: the integer,
    or the raw token when it is none. *)
Definition number_of (tok : str) : value :=
  match int ud tok with
  | Some n => VInt n
  | None => VStr tok
  end.

(** C10: [numbers] and [range] hold no element twice after any
    sequence of [process_line] calls, returned or raised;
    [found_number] appends its number only when it is not in
    [numbers] and reports "Multiple results" otherwise, and the loop
    of [maybe_range] appends a number only when it is not in [range]
    and reports an overlap otherwise. *)
Theorem no_duplicates :
  (forall lines : list str,
      NoDup (numbers (snd (drain ud lines init)))
      /\ NoDup (range (snd (drain ud lines init))))
  /\ (forall (line : str) (t : Tapper),
         NoDup (numbers t) /\ NoDup (range t) ->
         NoDup (numbers (snd (process_line ud line t)))
         /\ NoDup (range (snd (process_line ud line t))))
  /\ (forall (tok : str) (t : Tapper),
         let num := number_of tok in
         let t' := snd (found_number ud tok t) in
         if value_in num (numbers t)
         then numbers t' = numbers t
              /\ exists pre,
                  tap_errors t'
                  = pre ++ [lit "Multiple results for test no. "
                            ++ format num]
         else numbers t' = numbers t ++ [num])
  /\ (forall (word : str) (num : Z) (t : Tapper),
         let t' := snd (maybe_range_body word num t) in
         if existsb (Z.eqb num) (range t)
         then range t' = range t
              /\ tap_errors t'
                 = tap_errors t
                   ++ [lit "Overlapping range '" ++ word ++ lit "' at '"
                       ++ str_of_int num ++ lit "'"]
         else range t' = range t ++ [num]
              /\ tap_errors t' = tap_errors t).
Proof.
  split.
  { intros lines. unfold drain.
    apply (keeps_for_each (P := no_dup)); [|apply no_dup_init].
    intros line. apply keeps_no_dup_process_line. }
  split.
  { intros line t H. apply keeps_no_dup_process_line. exact H. }
  split.
  { intros tok t. cbv zeta. unfold found_number, number_of. run_monad.
    destruct t as [e s rs n rg te ec em asc out]; fields.
    destruct (int ud tok) as [k|]; fields;
      destruct (Nat.eqb (length rg) 0); fields;
      try destruct (negb _); fields;
      match goal with
      | |- context [value_in ?v n] => destruct (value_in v n)
      end; fields; try reflexivity;
      (split; [reflexivity | eexists; reflexivity]). }
  intros word num t. cbv zeta. unfold maybe_range_body. run_monad.
  destruct t as [e s rs n rg te ec em asc out]; fields.
  destruct (existsb (Z.eqb num) rg); cbn [negb]; fields;
    split; reflexivity.
Qed.

(** ** [found_number] on a token that is no integer *)

(** C5 (amended): when the token is no integer, [found_number]
    appends one "Invalid test number" error and goes on with the raw
    token: it appends the no-range error when no range is declared and
    the does-not-fit error otherwise (a raw token is never in the
    range), then the "Multiple results" error when the raw token is
    already in [numbers], and otherwise appends the raw token to
    [numbers]. *)
Theorem found_number_invalid (tok : str) (t : Tapper) :
  int ud tok = None ->
  let t' := snd (found_number ud tok t) in
  fst (found_number ud tok t) = Return tt
  /\ tap_errors t'
     = tap_errors t
       ++ [lit "Invalid test number: '" ++ tok ++ lit "'"]
       ++ [match range t with
           | [] => lit "No test range defined before result no. " ++ tok
           | _ => lit "Test result " ++ tok
                  ++ lit " doesn't fit into any previous range"
           end]
       ++ (if value_in (VStr tok) (numbers t)
           then [lit "Multiple results for test no. " ++ tok]
           else [])
  /\ numbers t'
     = (if value_in (VStr tok) (numbers t)
        then numbers t
        else numbers t ++ [VStr tok]).
Proof.
  intros Hi. cbv zeta. unfold found_number. rewrite Hi. run_monad.
  destruct t as [e s rs n rg te ec em asc out]; fields.
  destruct rg as [|z rg]; cbn [length Nat.eqb in_range negb format]; fields;
    destruct (value_in (VStr tok) n); fields;
    rewrite <- ?app_assoc; cbn [app]; rewrite ?app_nil_r;
    repeat split; reflexivity.
Qed.

(** ** [process_line], case by case *)

Lemma bind_return_inv {A B} (c : M A) (k : A -> M B) t b t' :
  bind c k t = (Return b, t') ->
  exists a t1, c t = (Return a, t1) /\ k a t1 = (Return b, t').
Proof.
  unfold bind. destruct (c t) as [[a|e] t1]; intros H.
  - exists a, t1. split; [reflexivity | exact H].
  - discriminate H.
Qed.

Lemma found_number_returns tok t : fst (found_number ud tok t) = Return tt.
Proof.
  unfold found_number. run_monad.
  destruct t as [e s rs n rg te ec em asc out]; fields.
  destruct (int ud tok) as [k|]; fields;
    destruct (Nat.eqb (length rg) 0); fields;
    try destruct (negb _); fields;
    match goal with
    | |- context [value_in ?v n] => destruct (value_in v n)
    end; reflexivity.
Qed.

(** What [found_number] leaves alone. *)
Definition same_records (t0 t : Tapper) : Prop :=
  errors t = errors t0 /\ successes t = successes t0
  /\ results t = results t0 /\ emoji t = emoji t0 /\ ascii t = ascii t0
  /\ error_count t = error_count t0.

Lemma found_number_frame tok t :
  let t' := snd (found_number ud tok t) in
  same_records t t' /\ range t' = range t /\ stdout t' = stdout t.
Proof.
  cbv zeta. unfold found_number, same_records. run_monad.
  destruct t as [e s rs n rg te ec em asc out]; fields.
  destruct (int ud tok) as [k|]; fields;
    destruct (Nat.eqb (length rg) 0); fields;
    try destruct (negb _); fields;
    match goal with
    | |- context [value_in ?v n] => destruct (value_in v n)
    end; fields; repeat split.
Qed.

(** What [maybe_range] leaves alone, after its [print]. *)
Definition same_but_range (t0 t : Tapper) : Prop :=
  same_records t0 t /\ numbers t = numbers t0 /\ stdout t = stdout t0.

Lemma same_but_range_refl t : same_but_range t t.
Proof. unfold same_but_range, same_records. repeat split. Qed.

Lemma keeps_same_tap_errors_append t0 msg :
  keeps (same_but_range t0) (tap_errors_append msg).
Proof. apply keeps_modify. intros [] H. exact H. Qed.

Lemma keeps_same_maybe_range_body t0 word num :
  keeps (same_but_range t0) (maybe_range_body word num).
Proof.
  unfold maybe_range_body. apply keeps_gets_bind. intros t H.
  destruct (negb _).
  - destruct t. exact H.
  - destruct t. exact H.
Qed.

#[local] Hint Resolve keeps_same_tap_errors_append
  keeps_same_maybe_range_body : keeps.

Lemma maybe_range_frame word t :
  let t' := snd (maybe_range ud word t) in
  same_records t t' /\ numbers t' = numbers t
  /\ stdout t' = stdout t ++ replace (lit "..") (lit " ") word ++ [10%N].
Proof.
  cbv zeta. unfold maybe_range. cbv zeta.
  set (p := replace (lit "..") (lit " ") word).
  set (t1 := with_stdout (fun o => o ++ p ++ [10%N]) t).
  match goal with
  | |- context [bind (print p) ?k] =>
      change (bind (print p) k t) with (k tt t1);
      assert (H : same_but_range t1 (snd (k tt t1)))
  end.
  { match goal with |- same_but_range t1 (snd (?c t1)) =>
      apply (fun K : keeps (same_but_range t1) c => K t1 (same_but_range_refl t1))
    end.
    keeps_step. }
  destruct H as ((H1 & H2 & H3 & H4 & H5 & H6) & H7 & H8).
  unfold same_records. rewrite H1, H2, H3, H4, H5, H6, H7, H8.
  subst t1. destruct t; fields. repeat split.
Qed.

(** The end of [process_line]: the range declaration, if the first
    word looks like one, and the echo. *)
Definition range_and_echo (line : str) : M unit :=
  match split (strip line) with
  | first :: _ =>
      if contains (lit "..") first then maybe_range ud first else ret tt
  | [] => ret tt
  end ;;
  print_noend line.

(** [process_line] by the three cases of its first test. *)
Lemma process_line_cases (line : str) (t : Tapper) :
  process_line ud line t =
  if startswith (lit "ok") (strip line)
  then match nth_error (split (strip line)) 1 with
       | Some tok =>
           let r := prefixed (strip line) (emoji t success) in
           (found_number ud tok ;; range_and_echo line)
             (with_results (fun l => l ++ [r])
                (with_successes (fun l => l ++ [r]) t))
       | None => (Raise IndexError, t)
       end
  else if startswith (lit "not ok") (strip line)
  then match nth_error (split (strip line)) 2 with
       | Some tok =>
           let r := prefixed (strip line) (emoji t failure) in
           (found_number ud tok ;; range_and_echo line)
             (with_results (fun l => l ++ [r])
                (with_errors (fun l => l ++ [r]) t))
       | None => (Raise IndexError, t)
       end
  else range_and_echo line t.
Proof.
  unfold process_line, range_and_echo, index. cbv zeta.
  destruct (startswith (lit "ok") (strip line)).
  - destruct (nth_error (split (strip line)) 1); reflexivity.
  - destruct (startswith (lit "not ok") (strip line)).
    + destruct (nth_error (split (strip line)) 2); reflexivity.
    + reflexivity.
Qed.

(** What a line adds to the output before its echo: for a first
    word containing two dots, [maybe_range] prints that word with the
    dots replaced. *)
Definition extra_print (line : str) : str :=
  match split (strip line) with
  | first :: _ =>
      if contains (lit "..") first
      then replace (lit "..") (lit " ") first ++ [10%N]
      else []
  | [] => []
  end.

Lemma range_and_echo_frame line t :
  let t' := snd (range_and_echo line t) in
  same_records t t' /\ numbers t' = numbers t.
Proof.
  cbv zeta. unfold range_and_echo.
  assert (K : forall c : M unit,
             (forall t, same_records t (snd (c t))
                        /\ numbers (snd (c t)) = numbers t) ->
             same_records t (snd ((c ;; print_noend line) t))
             /\ numbers (snd ((c ;; print_noend line) t)) = numbers t).
  { intros c Hc. specialize (Hc t). unfold bind.
    destruct (c t) as [[[]|e] t1]; cbn [snd] in *; [|exact Hc].
    destruct t1; exact Hc. }
  apply K. clear K t. intros t.
  destruct (split (strip line)) as [|first toks].
  - unfold same_records. repeat split.
  - destruct (contains (lit "..") first).
    + destruct (maybe_range_frame first t) as (H1 & H2 & _).
      split; assumption.
    + unfold same_records. repeat split.
Qed.

Lemma range_and_echo_stdout line t t' :
  range_and_echo line t = (Return tt, t') ->
  stdout t' = stdout t ++ extra_print line ++ line.
Proof.
  unfold range_and_echo, extra_print. intros H.
  apply bind_return_inv in H. destruct H as ([] & t1 & H1 & H2).
  injection H2 as <-.
  assert (E : stdout t1 = stdout t ++
              match split (strip line) with
              | first :: _ =>
                  if contains (lit "..") first
                  then replace (lit "..") (lit " ") first ++ [10%N]
                  else []
              | [] => []
              end).
  { destruct (split (strip line)) as [|first toks].
    - injection H1 as <-. rewrite app_nil_r. reflexivity.
    - destruct (contains (lit "..") first).
      + destruct (maybe_range_frame first t) as (_ & _ & H3).
        rewrite H1 in H3. exact H3.
      + injection H1 as <-. rewrite app_nil_r. reflexivity. }
  destruct t1; fields. cbn [stdout] in E. rewrite E.
  rewrite <- app_assoc. reflexivity.
Qed.

(** The object after the recording and validation of a result line,
    before the end of [process_line]. *)
Lemma found_number_then line tok t t' :
  (found_number ud tok ;; range_and_echo line) t = (Return tt, t') ->
  range_and_echo line (snd (found_number ud tok t)) = (Return tt, t').
Proof.
  intros H. apply bind_return_inv in H. destruct H as ([] & t1 & H1 & H2).
  rewrite H1. exact H2.
Qed.

(** ** The echo *)

Lemma process_line_stdout line t t' :
  process_line ud line t = (Return tt, t') ->
  stdout t' = stdout t ++ extra_print line ++ line.
Proof.
  rewrite process_line_cases. intros H.
  destruct (startswith (lit "ok") (strip line)).
  - destruct (nth_error (split (strip line)) 1) as [tok|]; [|discriminate H].
    cbv zeta in H. apply found_number_then in H.
    apply range_and_echo_stdout in H. rewrite H.
    match goal with
    | |- context [found_number ud tok ?u] =>
        destruct (found_number_frame tok u) as (_ & _ & ->)
    end.
    destruct t; reflexivity.
  - destruct (startswith (lit "not ok") (strip line)).
    + destruct (nth_error (split (strip line)) 2) as [tok|]; [|discriminate H].
      cbv zeta in H. apply found_number_then in H.
      apply range_and_echo_stdout in H. rewrite H.
      match goal with
      | |- context [found_number ud tok ?u] =>
          destruct (found_number_frame tok u) as (_ & _ & ->)
      end.
      destruct t; reflexivity.
    + apply range_and_echo_stdout. exact H.
Qed.

Lemma drain_stdout lines : forall t t',
  drain ud lines t = (Return tt, t') ->
  stdout t' = stdout t
              ++ concat (List.map (fun l => extra_print l ++ l) lines).
Proof.
  unfold drain. induction lines as [|l lines IH]; intros t t' H; cbn in *.
  - injection H as <-. rewrite app_nil_r. reflexivity.
  - apply bind_return_inv in H. destruct H as ([] & t1 & H1 & H2).
    apply process_line_stdout in H1. apply IH in H2.
    rewrite H2, H1. rewrite <- !app_assoc. reflexivity.
Qed.

Lemma for_each_print (ls : list str) : forall t,
  for_each ls print t
  = (Return tt,
     with_stdout (fun o => o ++ concat (List.map (fun l => l ++ [10%N]) ls)) t).
Proof.
  induction ls as [|l ls IH]; intros t; cbn [for_each List.map concat].
  - unfold ret. destruct t; fields. rewrite app_nil_r. reflexivity.
  - unfold bind, print, modify. rewrite IH. destruct t; fields.
    rewrite <- !app_assoc. reflexivity.
Qed.

(** C4 (amended): a line that [process_line] handles to its end adds
    to the output the line itself, as it came, preceded by one more
    line when its first word contains two dots: that word with every
    pair of dots replaced by a space.  A drained input adds just that
    for each of its lines in turn, and what [main] writes after it are
    the lines of the summary. *)
Theorem echo_and_range_print :
  (forall (line : str) (t t' : Tapper),
      process_line ud line t = (Return tt, t') ->
      stdout t' = stdout t ++ extra_print line ++ line)
  /\ (forall (lines : list str) (t t' : Tapper),
         drain ud lines t = (Return tt, t') ->
         stdout t'
         = stdout t ++ concat (List.map (fun l => extra_print l ++ l) lines))
  /\ (forall (ascii_flag : bool) (lines : list str) (code : Z) (t' : Tapper),
         main ud ascii_flag lines init = (Return code, t') ->
         exists summary : list str,
           stdout t'
           = concat (List.map (fun l => extra_print l ++ l) lines)
             ++ concat (List.map (fun l => l ++ [10%N]) summary)).
Proof.
  split; [exact process_line_stdout|]. split; [exact drain_stdout|].
  intros ascii_flag lines code t' H. unfold main in H.
  apply bind_return_inv in H. destruct H as ([] & t1 & H1 & H).
  apply bind_return_inv in H. destruct H as ([] & t2 & H2 & H).
  apply bind_return_inv in H. destruct H as ([] & t3 & H3 & H).
  apply bind_return_inv in H. destruct H as (summary & t4 & H4 & H).
  apply bind_return_inv in H. destruct H as ([] & t5 & H5 & H).
  exists summary.
  assert (E1 : stdout t1 = []).
  { destruct ascii_flag; injection H1 as <-; reflexivity. }
  apply drain_stdout in H2. rewrite E1 in H2. cbn [app] in H2.
  assert (E3 : stdout t3 = stdout t2).
  { rewrite finalize_run in H3. injection H3 as <-. destruct t2; reflexivity. }
  assert (E4 : stdout t4 = stdout t3).
  { pose proof (summarize_state t3) as K. rewrite H4 in K. cbn [snd] in K.
    rewrite K. destruct t3; reflexivity. }
  rewrite for_each_print in H5. injection H5 as <-.
  assert (E6 : stdout t' = stdout (with_stdout
             (fun o => o ++ concat (List.map (fun l => l ++ [10%N]) summary)) t4)).
  { unfold exit_code in H. run_monad in H.
    match type of H with
    | context [if ?b then _ else _] => destruct b
    end; injection H as _ <-; reflexivity. }
  rewrite E6. destruct t4; fields. cbn [stdout] in E4.
  rewrite E4, E3, H2. reflexivity.
Qed.

(** ** The result records *)

(** [found_number] reads [range], [numbers] and [tap_errors] only. *)
Lemma found_number_numbers tok f g h t :
  numbers (snd (found_number ud tok
                  (with_results f (with_successes g (with_errors h t)))))
  = numbers (snd (found_number ud tok t)).
Proof.
  unfold found_number. run_monad.
  destruct t as [e s rs n rg te ec em asc out]; fields.
  destruct (int ud tok) as [k|]; fields;
    destruct (Nat.eqb (length rg) 0); fields;
    try destruct (negb _); fields;
    match goal with
    | |- context [value_in ?v n] => destruct (value_in v n)
    end; reflexivity.
Qed.

(** C7 (amended): for a line that [process_line] handles to its end,
    a success record is appended exactly when the trimmed line begins
    with the two characters "ok" (so also for a first word such as
    "okay"), with the second word as test number; otherwise a failure
    record is appended exactly when the trimmed line begins with
    "not ok", with the third word as test number; any other line
    leaves the records and the seen numbers as they were. *)
Theorem result_records (line : str) (t t' : Tapper) :
  process_line ud line t = (Return tt, t') ->
  let stripped := strip line in
  if startswith (lit "ok") stripped
  then exists tok,
      nth_error (split stripped) 1 = Some tok
      /\ successes t' = successes t ++ [prefixed stripped (emoji t success)]
      /\ results t' = results t ++ [prefixed stripped (emoji t success)]
      /\ errors t' = errors t
      /\ numbers t' = numbers (snd (found_number ud tok t))
  else if startswith (lit "not ok") stripped
  then exists tok,
      nth_error (split stripped) 2 = Some tok
      /\ errors t' = errors t ++ [prefixed stripped (emoji t failure)]
      /\ results t' = results t ++ [prefixed stripped (emoji t failure)]
      /\ successes t' = successes t
      /\ numbers t' = numbers (snd (found_number ud tok t))
  else successes t' = successes t /\ errors t' = errors t
       /\ results t' = results t /\ numbers t' = numbers t.
Proof.
  rewrite process_line_cases. intros H. cbv zeta.
  destruct (startswith (lit "ok") (strip line)).
  - destruct (nth_error (split (strip line)) 1) as [tok|]; [|discriminate H].
    cbv zeta in H. apply found_number_then in H. exists tok.
    split; [reflexivity|].
    match type of H with
    | range_and_echo line (snd (found_number ud tok ?u)) = _ =>
        pose proof (range_and_echo_frame line (snd (found_number ud tok u)))
          as K;
        destruct (found_number_frame tok u) as (F & _);
        pose proof (found_number_numbers tok (fun l => l ++ [prefixed (strip line) (emoji t success)])
                      (fun l => l ++ [prefixed (strip line) (emoji t success)])
                      (fun l => l) t) as N
    end.
    rewrite H in K. cbv zeta in K. cbn [snd] in K.
    destruct K as ((K1 & K2 & K3 & _) & K4).
    destruct F as (F1 & F2 & F3 & _).
    rewrite K1, K2, K3, K4, F1, F2, F3, <- N.
    destruct t; fields; repeat split.
  - destruct (startswith (lit "not ok") (strip line)).
    + destruct (nth_error (split (strip line)) 2) as [tok|]; [|discriminate H].
      cbv zeta in H. apply found_number_then in H. exists tok.
      split; [reflexivity|].
      match type of H with
      | range_and_echo line (snd (found_number ud tok ?u)) = _ =>
          pose proof (range_and_echo_frame line (snd (found_number ud tok u)))
            as K;
          destruct (found_number_frame tok u) as (F & _);
          pose proof (found_number_numbers tok (fun l => l ++ [prefixed (strip line) (emoji t failure)])
                        (fun l => l)
                        (fun l => l ++ [prefixed (strip line) (emoji t failure)]) t) as N
      end.
      rewrite H in K. cbv zeta in K. cbn [snd] in K.
      destruct K as ((K1 & K2 & K3 & _) & K4).
      destruct F as (F1 & F2 & F3 & _).
      rewrite K1, K2, K3, K4, F1, F2, F3, <- N.
      destruct t; fields; repeat split.
    + pose proof (range_and_echo_frame line t) as K.
      rewrite H in K. cbv zeta in K. cbn [snd] in K.
      destruct K as ((K1 & K2 & K3 & _) & K4).
      rewrite K1, K2, K3, K4. repeat split.
Qed.

End Streaming.

(* ================================================================== *)
(** * The built-ins on words and decimal text *)
(* ================================================================== *)

(** Decides comparisons of a character with constants. *)
Ltac char_cases :=
  repeat match goal with
         | |- context [(?a <=? ?b)%N] =>
             first [ rewrite (proj2 (N.leb_gt a b)) by lia
                   | rewrite (proj2 (N.leb_le a b)) by lia ]
         | |- context [(?a <? ?b)%N] =>
             first [ rewrite (proj2 (N.ltb_lt a b)) by lia
                   | rewrite (proj2 (N.ltb_ge a b)) by lia ]
         | |- context [(?a =? ?b)%N] =>
             first [ rewrite (proj2 (N.eqb_neq a b)) by lia
                   | rewrite (proj2 (N.eqb_eq a b)) by lia ]
         end.

(** A word: characters that are no whitespace. *)
Definition word (w : str) : Prop := Forall (fun c => isspace c = false) w.

(** What may follow a word: nothing, or text that begins with
    whitespace. *)
Definition ends_word (s : str) : Prop :=
  match s with
  | [] => True
  | c :: _ => isspace c = true
  end.

Definition decimal (s : str) : Prop :=
  Forall (fun c => (48 <= c <= 57)%N) s.

Lemma decimal_word s : decimal s -> word s.
Proof.
  apply Forall_impl. intros c Hc. unfold isspace. char_cases. reflexivity.
Qed.

Lemma uint_chars_decimal d : decimal (uint_chars d).
Proof.
  induction d; cbn [uint_chars]; constructor; try assumption; lia.
Qed.

Lemma uint_chars_nonempty d : d <> Nil -> uint_chars d <> [].
Proof. destruct d; cbn; congruence. Qed.

Lemma pos_to_uint_not_nil p : Pos.to_uint p <> Nil.
Proof.
  intros H.
  pose proof (DecimalPos.Unsigned.of_to p) as K. rewrite H in K.
  discriminate K.
Qed.

(** ** [split] *)

Lemma split_from_word cur w s :
  word w -> split_from cur (w ++ s) = split_from (rev w ++ cur) s.
Proof.
  intros Hw. revert cur. induction Hw as [|c w Hc Hw IH]; intros cur.
  - reflexivity.
  - cbn [app split_from rev]. rewrite Hc, IH, <- app_assoc. reflexivity.
Qed.

Lemma split_space c s : isspace c = true -> split (c :: s) = split s.
Proof. intros H. unfold split. cbn. rewrite H. reflexivity. Qed.

Lemma split_word w s :
  word w -> w <> [] -> ends_word s -> split (w ++ s) = w :: split s.
Proof.
  intros Hw Hn Hs. unfold split. rewrite split_from_word by exact Hw.
  rewrite app_nil_r.
  assert (Hr : rev w <> []).
  { intros E. apply Hn. rewrite <- (rev_involutive w), E. reflexivity. }
  destruct s as [|c s]; cbn [split_from].
  - destruct (rev w) eqn:E; [congruence|]. rewrite <- E, rev_involutive.
    reflexivity.
  - cbn in Hs. rewrite Hs.
    destruct (rev w) eqn:E; [congruence|]. rewrite <- E, rev_involutive.
    reflexivity.
Qed.

Lemma split_one_word w : word w -> w <> [] -> split w = [w].
Proof.
  intros Hw Hn. rewrite <- (app_nil_r w) at 1.
  rewrite split_word; [reflexivity | exact Hw | exact Hn | exact I].
Qed.

Lemma split_lstrip s : split (lstrip s) = split s.
Proof.
  induction s as [|c s IH]; [reflexivity|]. cbn [lstrip].
  destruct (isspace c) eqn:E; [|reflexivity].
  rewrite split_space by exact E. exact IH.
Qed.

Lemma rstrip_nil s : rstrip s = [] -> forallb isspace s = true.
Proof.
  induction s as [|c s IH]; [reflexivity|]. cbn [rstrip forallb].
  destruct (rstrip s); [|discriminate].
  destruct (isspace c); [|discriminate]. intros _. apply IH. reflexivity.
Qed.

Lemma split_from_spaces cur s :
  forallb isspace s = true ->
  split_from cur s = match cur with [] => [] | _ => [rev cur] end.
Proof.
  induction s as [|c s IH]; [reflexivity|]. cbn [forallb split_from].
  intros H. apply andb_true_iff in H. destruct H as [Hc Hs].
  rewrite Hc. pose proof (IH Hs) as K.
  destruct cur; [exact (IH Hs)|].
  assert (K0 : split_from [] s = []).
  { clear - Hs. induction s as [|d s IH]; [reflexivity|].
    cbn [forallb] in Hs. apply andb_true_iff in Hs. destruct Hs as [Hd Hs].
    cbn [split_from]. rewrite Hd. apply IH. exact Hs. }
  rewrite K0. reflexivity.
Qed.

Lemma split_from_cons cur c s :
  split_from cur (c :: s)
  = if isspace c
    then match cur with
         | [] => split_from [] s
         | _ => rev cur :: split_from [] s
         end
    else split_from (c :: cur) s.
Proof. reflexivity. Qed.

Lemma split_from_rstrip s : forall cur,
  split_from cur (rstrip s) = split_from cur s.
Proof.
  induction s as [|c s IH]; intros cur; [reflexivity|].
  cbn [rstrip]. destruct (rstrip s) as [|d r] eqn:E.
  - apply rstrip_nil in E.
    destruct (isspace c) eqn:Ec; cbn [split_from]; rewrite Ec.
    + rewrite (split_from_spaces [] s E).
      destruct cur; reflexivity.
    + rewrite (split_from_spaces (c :: cur) s E). reflexivity.
  - rewrite (split_from_cons cur c s), (split_from_cons cur c (d :: r)).
    rewrite !IH. reflexivity.
Qed.

Lemma split_strip s : split (strip s) = split s.
Proof.
  unfold strip, split at 1. rewrite split_from_rstrip. apply split_lstrip.
Qed.

(** ** [strip] and the first characters *)

Lemma rstrip_cons c s : isspace c = false -> rstrip (c :: s) = c :: rstrip s.
Proof. intros H. cbn [rstrip]. rewrite H. destruct (rstrip s); reflexivity. Qed.

Lemma rstrip_cons_more c s : rstrip s <> [] -> rstrip (c :: s) = c :: rstrip s.
Proof. intros H. cbn [rstrip]. destruct (rstrip s); [congruence | reflexivity]. Qed.

(** ** [replace] and [in] where the first character of the pattern
    does not occur *)

Lemma replace_from_absent h old new s :
  Forall (fun c => c <> h) s -> replace_from (h :: old) new 0 s = s.
Proof.
  induction 1 as [|c s Hc Hs IH]; [reflexivity|].
  cbn [replace_from startswith].
  rewrite (proj2 (N.eqb_neq h c)) by congruence. cbn [andb].
  rewrite IH. reflexivity.
Qed.

Lemma contains_absent h p s :
  Forall (fun c => c <> h) s -> contains (h :: p) s = false.
Proof.
  induction 1 as [|c s Hc Hs IH]; [reflexivity|].
  cbn [contains startswith].
  rewrite (proj2 (N.eqb_neq h c)) by congruence. cbn [andb orb]. exact IH.
Qed.

Lemma decimal_absent h s :
  decimal s -> (h < 48 \/ 57 < h)%N -> Forall (fun c => c <> h) s.
Proof. intros Hs Hh. eapply Forall_impl; [|exact Hs]. cbn. intros c Hc. lia. Qed.

(** ** [int] reads back what [str] writes *)

Lemma int_digits_uint_chars d :
  int_digits false (uint_chars d) = Some d
  /\ (d <> Nil -> int_digits true (uint_chars d) = Some d).
Proof.
  induction d as [|d [IH _]|d [IH _]|d [IH _]|d [IH _]|d [IH _]|d [IH _]
                 |d [IH _]|d [IH _]|d [IH _]|d [IH _]];
    [split; [reflexivity | congruence]|..];
    (split; [|intros _]);
    cbn [uint_chars int_digits];
    match goal with
    | |- context [digit_cons ?c] =>
        let v := eval vm_compute in (digit_cons c) in
        change (digit_cons c) with v
    end; cbv beta iota; rewrite IH; reflexivity.
Qed.

Section IntOfStr.

Variable ud : char -> option N.

Lemma to_ascii_decimal s : decimal s -> List.map (to_ascii ud) s = s.
Proof.
  induction 1 as [|c s Hc Hs IH]; [reflexivity|]. cbn [List.map].
  rewrite IH. f_equal. unfold to_ascii. char_cases. reflexivity.
Qed.

Lemma int_uint_chars d :
  d <> Nil -> int ud (uint_chars d) = Some (Z.of_uint d).
Proof.
  intros Hd. unfold int.
  rewrite to_ascii_decimal by apply uint_chars_decimal.
  pose proof (uint_chars_decimal d) as Hdec.
  destruct (int_digits_uint_chars d) as [_ Ht]. specialize (Ht Hd).
  destruct (uint_chars d) as [|c s] eqn:E.
  { exfalso. apply (uint_chars_nonempty Hd). exact E. }
  inversion Hdec as [|? ? Hc Hs]; subst.
  cbn [skip_c_space]. unfold c_isspace. char_cases. cbn [andb orb].
  char_cases. rewrite Ht. reflexivity.
Qed.

Lemma int_neg_uint_chars d :
  d <> Nil -> int ud (45%N :: uint_chars d) = Some (- Z.of_uint d).
Proof.
  intros Hd. unfold int. cbn [List.map].
  rewrite to_ascii_decimal by apply uint_chars_decimal.
  destruct (int_digits_uint_chars d) as [_ Ht]. specialize (Ht Hd).
  change (to_ascii ud 45%N) with 45%N.
  cbn [skip_c_space]. change (c_isspace 45%N) with false. cbv beta iota.
  change (45 =? 43)%N with false. change (45 =? 45)%N with true.
  cbv beta iota. rewrite Ht. reflexivity.
Qed.

(** [int(str(z))] is [z]. *)
Lemma int_str_of_int z : int ud (str_of_int z) = Some z.
Proof.
  unfold str_of_int. destruct z as [|p|p]; cbn [Z.to_int].
  - reflexivity.
  - rewrite int_uint_chars by apply pos_to_uint_not_nil.
    unfold Z.of_uint. rewrite DecimalPos.Unsigned.of_to. reflexivity.
  - rewrite int_neg_uint_chars by apply pos_to_uint_not_nil.
    unfold Z.of_uint. rewrite DecimalPos.Unsigned.of_to. reflexivity.
Qed.

End IntOfStr.

(** The decimal text of a number from 0 on is a non-empty word of
    digits. *)
Lemma str_of_int_decimal z : 0 <= z -> decimal (str_of_int z).
Proof.
  intros Hz. unfold str_of_int.
  destruct z as [|p|p]; cbn [Z.to_int]; [| |lia]; apply uint_chars_decimal.
Qed.

Lemma str_of_int_nonempty z : str_of_int z <> [].
Proof.
  unfold str_of_int. destruct z as [|p|p]; cbn [Z.to_int].
  - discriminate.
  - apply uint_chars_nonempty, pos_to_uint_not_nil.
  - discriminate.
Qed.

(* ================================================================== *)
(** * A well-formed stream *)
(* ================================================================== *)

(** A result line of the input: "ok" or "not ok", a space, the test
    number in decimal, and the rest of the line (a description, the
    end of the line), which is empty or begins with whitespace. *)
Record tap_result := mk_result {
  passed : bool;
  number : Z;
  rest : str
}.

Definition result_line (r : tap_result) : str :=
  (if passed r then lit "ok " else lit "not ok ")
  ++ str_of_int (number r) ++ rest r.

(** The range declaration "1..n", followed by the rest of its line. *)
Definition range_line (n : Z) (rest : str) : str :=
  lit "1.." ++ str_of_int n ++ rest.

(** Replaces the literals of the goal by their characters. *)
Ltac eval_lit :=
  repeat match goal with
         | |- context [lit ?s] =>
             let v := eval vm_compute in (lit s) in
             change (lit s) with v
         end.

Lemma strip_ok (x : str) :
  strip (lit "ok " ++ x) = lit "ok" ++ rstrip (32%N :: x).
Proof.
  eval_lit. unfold strip. cbn [app lstrip].
  change (isspace 111%N) with false. cbv beta iota.
  rewrite !rstrip_cons by reflexivity. reflexivity.
Qed.

Lemma strip_not_ok (x : str) :
  strip (lit "not ok " ++ x) = lit "not ok" ++ rstrip (32%N :: x).
Proof.
  eval_lit. unfold strip. cbn [app lstrip].
  change (isspace 110%N) with false. cbv beta iota.
  rewrite 3!rstrip_cons by reflexivity.
  rewrite (rstrip_cons_more 32%N).
  - rewrite 2!rstrip_cons by reflexivity. reflexivity.
  - rewrite rstrip_cons by reflexivity. discriminate.
Qed.

Lemma split_result_line (r : tap_result) :
  0 <= number r -> ends_word (rest r) ->
  split (strip (result_line r))
  = (if passed r then [lit "ok"] else [lit "not"; lit "ok"])
    ++ str_of_int (number r) :: split (rest r).
Proof.
  intros Hk Hr. rewrite split_strip. unfold result_line.
  assert (Hn : split (32%N :: str_of_int (number r) ++ rest r)
               = str_of_int (number r) :: split (rest r)).
  { rewrite split_space by reflexivity.
    apply split_word; [|apply str_of_int_nonempty | exact Hr].
    apply decimal_word, str_of_int_decimal. exact Hk. }
  destruct (passed r); eval_lit.
  - change ([111; 107; 32]%N ++ ?x) with ([111; 107]%N ++ 32%N :: x).
    rewrite split_word; [rewrite Hn; reflexivity | | discriminate | reflexivity].
    repeat constructor.
  - change ([110; 111; 116; 32; 111; 107; 32]%N ++ ?x)
      with ([110; 111; 116]%N ++ 32%N :: [111; 107]%N ++ 32%N :: x).
    rewrite split_word; [| | discriminate | reflexivity];
      [|repeat constructor].
    rewrite split_space by reflexivity.
    rewrite split_word; [rewrite Hn; reflexivity | | discriminate | reflexivity].
    repeat constructor.
Qed.

Lemma startswith_result_line (r : tap_result) :
  startswith (lit "ok") (strip (result_line r)) = passed r
  /\ (passed r = false ->
      startswith (lit "not ok") (strip (result_line r)) = true).
Proof.
  unfold result_line. destruct (passed r).
  - rewrite strip_ok. split; [reflexivity | discriminate].
  - rewrite strip_not_ok. split; reflexivity.
Qed.

Lemma py_range_In a b k : In k (py_range a b) <-> a <= k < b.
Proof.
  unfold py_range. rewrite in_map_iff. split.
  - intros (i & <- & Hi). apply in_seq in Hi. lia.
  - intros H. exists (Z.to_nat (k - a)). split; [lia|]. apply in_seq. lia.
Qed.

Lemma py_range_NoDup a b : NoDup (py_range a b).
Proof.
  unfold py_range. generalize (Z.to_nat (b - a)) as n. intros n.
  induction (seq_NoDup n 0) as [|i l Hi Hl IH]; cbn [List.map]; constructor.
  - rewrite in_map_iff. intros (j & E & Hj).
    assert (j = i) by lia. subst. contradiction.
  - exact IH.
Qed.

Lemma py_range_length a b : length (py_range a b) = Z.to_nat (b - a).
Proof. unfold py_range. rewrite length_map, length_seq. reflexivity. Qed.

Section ValidStream.

Variable ud : char -> option N.

(** [found_number] on the decimal text of a number that is in the
    range and was not seen: the number is appended to [numbers] and
    no error is recorded. *)
Lemma found_number_valid (k : Z) (t : Tapper) :
  In k (range t) -> ~ In (VInt k) (numbers t) ->
  found_number ud (str_of_int k) t
  = (Return tt, with_numbers (fun l => l ++ [VInt k]) t).
Proof.
  intros Hr Hn. unfold found_number. rewrite int_str_of_int. run_monad.
  destruct t as [e s rs n rg te ec em asc out]; fields.
  cbn [range numbers] in Hr, Hn.
  destruct rg as [|z rg]; [destruct Hr|]. cbn [length Nat.eqb].
  unfold in_range. rewrite (proj2 (int_in_In k (z :: rg)) Hr). cbn [negb].
  destruct (value_in (VInt k) n) eqn:E.
  - apply value_in_In in E. contradiction.
  - reflexivity.
Qed.

(** The loop of [maybe_range] over numbers none of which is in
    [range] yet. *)
Lemma for_each_range_fresh (w : str) (l : list Z) : forall t : Tapper,
  NoDup l -> (forall x, In x l -> ~ In x (range t)) ->
  for_each l (maybe_range_body w) t
  = (Return tt, with_range (fun r => r ++ l) t).
Proof.
  induction l as [|x l IH]; intros t Hl Hf; cbn [for_each].
  - unfold ret. destruct t; fields. rewrite app_nil_r. reflexivity.
  - inversion Hl as [|? ? Hx Hl']; subst.
    unfold bind. unfold maybe_range_body at 1. run_monad.
    assert (E : existsb (Z.eqb x) (range t) = false).
    { destruct (existsb (Z.eqb x) (range t)) eqn:E; [|reflexivity].
      apply int_in_In in E. exfalso. apply (Hf x); [left; reflexivity | exact E]. }
    rewrite E. cbn [negb]. rewrite IH.
    + destruct t; fields. rewrite <- app_assoc. reflexivity.
    + exact Hl'.
    + intros y Hy. destruct t; fields. rewrite in_app_iff.
      intros [H|[H|[]]].
      * apply (Hf y); [right; exact Hy | exact H].
      * subst. contradiction.
Qed.

(** The range declaration on an object without a range. *)
Lemma process_range_line (n : Z) (tl : str) (t : Tapper) :
  1 <= n -> ends_word tl -> range t = [] ->
  process_line ud (range_line n tl) t
  = (Return tt,
     with_stdout (fun o => o ++ range_line n tl)
       (with_range (fun _ => py_range 1 (n + 1))
          (with_stdout (fun o => o ++ lit "1 " ++ str_of_int n ++ [10%N]) t))).
Proof.
  intros Hn Htl Hr.
  pose proof (str_of_int_decimal (z := n) ltac:(lia)) as Hd.
  assert (Hw : word (lit "1.." ++ str_of_int n)).
  { eval_lit. repeat (constructor; [reflexivity|]).
    apply decimal_word. exact Hd. }
  assert (Hs : strip (range_line n tl)
               = 49%N :: rstrip (lit ".." ++ str_of_int n ++ tl)).
  { unfold range_line, strip. eval_lit. cbn [app lstrip].
    change (isspace 49%N) with false. cbv beta iota.
    rewrite rstrip_cons by reflexivity. reflexivity. }
  assert (Hsp : split (strip (range_line n tl))
                = (lit "1.." ++ str_of_int n) :: split tl).
  { rewrite split_strip. unfold range_line. rewrite app_assoc.
    apply split_word; [exact Hw | | exact Htl]. eval_lit. discriminate. }
  rewrite process_line_cases. rewrite Hs.
  change (startswith (lit "ok") (49%N :: ?x)) with false.
  change (startswith (lit "not ok") (49%N :: ?x)) with false.
  cbv beta iota. unfold range_and_echo. rewrite Hsp.
  assert (Hc : contains (lit "..") (lit "1.." ++ str_of_int n) = true)
    by (eval_lit; reflexivity).
  rewrite Hc.
  assert (Hp : replace (lit "..") (lit " ") (lit "1.." ++ str_of_int n)
               = lit "1 " ++ str_of_int n).
  { eval_lit. unfold replace. cbn [app replace_from startswith length Nat.sub].
    change (46 =? 49)%N with false. change (46 =? 46)%N with true.
    cbn [andb app]. rewrite replace_from_absent; [reflexivity|].
    apply decimal_absent; [exact Hd | lia]. }
  unfold maybe_range. cbv zeta. rewrite Hp.
  assert (Hdot : contains (lit ".") (lit "1 " ++ str_of_int n) = false).
  { eval_lit. cbn [app contains startswith].
    change (46 =? 49)%N with false. change (46 =? 32)%N with false.
    cbn [andb orb]. apply contains_absent.
    apply decimal_absent; [exact Hd | lia]. }
  rewrite Hdot.
  assert (Hparts : split (lit "1 " ++ str_of_int n) = [lit "1"; str_of_int n]).
  { eval_lit. change ([49; 32]%N ++ ?x) with ([49%N] ++ 32%N :: x).
    rewrite split_word; [| repeat constructor | discriminate | reflexivity].
    rewrite split_space by reflexivity.
    rewrite split_one_word;
      [reflexivity | apply decimal_word; exact Hd
       | apply str_of_int_nonempty]. }
  rewrite Hparts. cbn [length Nat.eqb negb]. unfold index. cbn [nth_error].
  unfold to_int. change (lit "1") with (str_of_int 1).
  run_monad. rewrite !int_str_of_int. cbv beta iota.
  destruct (Z.gtb_spec 1 n) as [Hgt|_]; [lia|].
  rewrite for_each_range_fresh.
  - destruct t; fields. cbn [range] in Hr. subst.
    rewrite <- !app_assoc. reflexivity.
  - apply py_range_NoDup.
  - intros x _. destruct t; fields. cbn [range] in Hr. subst. intros [].
Qed.

(** The record of a result line. *)
Definition record_of (r : tap_result) (t : Tapper) : str :=
  prefixed (strip (result_line r))
           (emoji t (if passed r then success else failure)).

(** A result line whose number is in the range and was not seen. *)
Lemma process_result_line (r : tap_result) (t : Tapper) :
  0 <= number r -> ends_word (rest r) ->
  In (number r) (range t) -> ~ In (VInt (number r)) (numbers t) ->
  process_line ud (result_line r) t
  = (Return tt,
     with_stdout (fun o => o ++ result_line r)
       (with_numbers (fun l => l ++ [VInt (number r)])
          (with_results (fun l => l ++ [record_of r t])
             (if passed r
              then with_successes (fun l => l ++ [record_of r t]) t
              else with_errors (fun l => l ++ [record_of r t]) t)))).
Proof.
  intros Hk Hrest Hr Hn. rewrite process_line_cases.
  destruct (startswith_result_line r) as [Hok Hnot].
  pose proof (split_result_line r Hk Hrest) as Hsp.
  unfold range_and_echo, record_of. rewrite Hok, Hsp.
  destruct (passed r) eqn:Ep.
  - cbn [app nth_error]. cbv zeta. unfold bind at 1.
    rewrite found_number_valid.
    + change (contains (lit "..") (lit "ok")) with false. run_monad.
      destruct t; reflexivity.
    + destruct t; exact Hr.
    + destruct t; exact Hn.
  - rewrite (Hnot eq_refl). cbn [app nth_error]. cbv zeta. unfold bind at 1.
    rewrite found_number_valid.
    + change (contains (lit "..") (lit "not")) with false. run_monad.
      destruct t; reflexivity.
    + destruct t; exact Hr.
    + destruct t; exact Hn.
Qed.

Definition failed (r : tap_result) : bool := negb (passed r).

(** Result lines with distinct numbers, all in the range and none
    seen yet: each is recorded, no protocol error is added. *)
Lemma drain_result_lines (rs : list tap_result) : forall t : Tapper,
  NoDup (List.map number rs) ->
  (forall r, In r rs ->
             0 <= number r /\ ends_word (rest r)
             /\ In (number r) (range t)
             /\ ~ In (VInt (number r)) (numbers t)) ->
  exists t',
    drain ud (List.map result_line rs) t = (Return tt, t')
    /\ range t' = range t
    /\ tap_errors t' = tap_errors t
    /\ error_count t' = error_count t
    /\ emoji t' = emoji t
    /\ length (numbers t') = (length (numbers t) + length rs)%nat
    /\ length (results t') = (length (results t) + length rs)%nat
    /\ length (errors t')
       = (length (errors t) + length (filter failed rs))%nat
    /\ length (successes t')
       = (length (successes t) + length (filter passed rs))%nat.
Proof.
  unfold drain.
  induction rs as [|r rs IH]; intros t Hd Hall; cbn [List.map for_each].
  - exists t. unfold ret. cbn [length filter]. rewrite !Nat.add_0_r.
    repeat split.
  - inversion Hd as [|? ? Hfresh Hd']; subst.
    destruct (Hall r (or_introl eq_refl)) as (Hk & Hrest & Hr & Hn).
    unfold bind at 1. rewrite (process_result_line r t Hk Hrest Hr Hn).
    match goal with
    | |- context [for_each _ _ ?u] => set (t1 := u)
    end.
    assert (R1 : range t1 = range t)
      by (subst t1; destruct t, (passed r); reflexivity).
    assert (N1 : numbers t1 = numbers t ++ [VInt (number r)])
      by (subst t1; destruct t, (passed r); reflexivity).
    destruct (IH t1 Hd') as (t' & Hrun & E1 & E2 & E3 & E4 & E5 & E6 & E7 & E8).
    { intros r' Hr'. destruct (Hall r' (or_intror Hr')) as (A & B & C & D).
      rewrite R1, N1. repeat split; try assumption.
      rewrite in_app_iff. intros [H|[H|[]]]; [contradiction|].
      injection H as H. apply Hfresh. rewrite H.
      apply in_map. exact Hr'. }
    exists t'. split; [exact Hrun|].
    rewrite E1, E2, E3, E4, E5, E6, E7, E8, N1, length_app.
    subst t1. unfold failed. cbn [filter length].
    destruct t as [e s rs0 n rg te ec em asc out], (passed r);
      fields; cbn [negb length]; rewrite ?length_app; cbn [length];
      repeat split; lia.
Qed.

(** The object [main] drains its input into. *)
Definition fresh (ascii_flag : bool) : Tapper :=
  if ascii_flag then with_emoji ascii_table init else init.

(** [main] after a drain that returned: the exit code is that of the
    finalized object. *)
Lemma main_exit (ascii_flag : bool) (lines : list str) (t1 : Tapper) :
  drain ud lines (fresh ascii_flag) = (Return tt, t1) ->
  fst (main ud ascii_flag lines init)
  = Return (Z.min (error_count (snd (finalize t1))) 100).
Proof.
  intros Hd. unfold main. unfold bind at 1.
  assert (E0 : (if ascii_flag then set_ascii else ret tt) init
               = (Return tt, fresh ascii_flag))
    by (destruct ascii_flag; reflexivity).
  rewrite E0. unfold bind at 1. rewrite Hd.
  unfold bind at 1.
  pose proof (finalize_error_count t1) as Hc.
  destruct (finalize t1) as [o t2] eqn:Ef.
  assert (Ho : o = Return tt).
  { rewrite finalize_run in Ef. injection Ef as <- _. reflexivity. }
  subst o. cbn [snd] in *.
  assert (H0 : 0 <= error_count t2) by lia.
  unfold bind at 1.
  destruct (summarize_returns t2 H0) as (ls & Hls).
  pose proof (summarize_state t2) as Hst.
  destruct (summarize t2) as [o3 t3]. cbn [fst snd] in Hls, Hst. subst o3.
  unfold bind at 1. rewrite for_each_print.
  rewrite exit_code_run.
  - subst t3. destruct t2; reflexivity.
  - subst t3. destruct t2; exact H0.
Qed.

(** C1: for the input made of the range declaration "1..n" (n at
    least 1) followed by n result lines whose numbers are distinct
    and between 1 and n, draining returns, [finalize] records no
    protocol error and sets [error_count] to the number of "not ok"
    lines, [exit_code] returns the smaller of that number and 100,
    and [main] exits with that number when it is at most 100. *)
Theorem valid_stream_error_count
    (ascii_flag : bool) (n : Z) (tl : str) (rs : list tap_result) :
  1 <= n -> ends_word tl ->
  length rs = Z.to_nat n ->
  NoDup (List.map number rs) ->
  (forall r, In r rs -> 1 <= number r <= n /\ ends_word (rest r)) ->
  let lines := range_line n tl :: List.map result_line rs in
  let not_ok := Z.of_nat (length (filter failed rs)) in
  exists t1 t2,
    drain ud lines (fresh ascii_flag) = (Return tt, t1)
    /\ finalize t1 = (Return tt, t2)
    /\ tap_errors t2 = []
    /\ error_count t2 = not_ok
    /\ exit_code t2 = (Return (Z.min not_ok 100), t2)
    /\ (not_ok <= 100 ->
        fst (main ud ascii_flag lines init) = Return not_ok).
Proof.
  intros Hn Htl Hlen Hnd Hall lines not_ok.
  set (t0 := with_stdout (fun o => o ++ range_line n tl)
               (with_range (fun _ => py_range 1 (n + 1))
                  (with_stdout
                     (fun o => o ++ lit "1 " ++ str_of_int n ++ [10%N])
                     (fresh ascii_flag)))).
  assert (Hr0 : process_line ud (range_line n tl) (fresh ascii_flag)
                = (Return tt, t0)).
  { apply process_range_line; [exact Hn | exact Htl|].
    destruct ascii_flag; reflexivity. }
  assert (R0 : range t0 = py_range 1 (n + 1))
    by (destruct ascii_flag; reflexivity).
  assert (N0 : numbers t0 = []) by (destruct ascii_flag; reflexivity).
  assert (T0 : tap_errors t0 = []) by (destruct ascii_flag; reflexivity).
  assert (S0 : results t0 = [] /\ errors t0 = [] /\ successes t0 = [])
    by (destruct ascii_flag; repeat split; reflexivity).
  destruct S0 as (S1 & S2 & S3).
  destruct (drain_result_lines rs t0 Hnd)
    as (t1 & Hrun & E1 & E2 & E3 & E4 & E5 & E6 & E7 & E8).
  { intros r Hr. destruct (Hall r Hr) as [Hk Hrest].
    rewrite R0, N0. repeat split; [lia | exact Hrest | | intros []].
    apply py_range_In. lia. }
  rewrite R0 in E1. rewrite T0 in E2. rewrite N0 in E5.
  rewrite S1 in E6. rewrite S2 in E7. cbn [length Nat.add] in E5, E6, E7.
  assert (Hd : drain ud lines (fresh ascii_flag) = (Return tt, t1)).
  { unfold lines, drain. cbn [for_each]. unfold bind at 1.
    rewrite Hr0. exact Hrun. }
  assert (Hm : finalize_messages t1 = []).
  { unfold finalize_messages.
    rewrite E1, E5, E6, py_range_length, Hlen.
    replace (Z.to_nat (n + 1 - 1)) with (Z.to_nat n) by lia.
    destruct (Nat.leb_spec (Z.to_nat n) 0); [lia|].
    rewrite Nat.ltb_irrefl. reflexivity. }
  set (t2 := snd (finalize t1)).
  assert (Hf : finalize t1 = (Return tt, t2)).
  { unfold t2. rewrite finalize_run. reflexivity. }
  assert (Ht : tap_errors t2 = []).
  { unfold t2. rewrite finalize_run, Hm. destruct t1; fields.
    cbn [tap_errors] in E2. rewrite E2. reflexivity. }
  assert (Hc : error_count t2 = not_ok).
  { unfold t2 at 1. rewrite finalize_error_count. fold t2. rewrite Ht.
    unfold t2. rewrite finalize_run. destruct t1; fields.
    cbn [errors] in E7. rewrite E7. cbn [length]. unfold not_ok. lia. }
  exists t1, t2.
  split; [exact Hd|]. split; [exact Hf|]. split; [exact Ht|].
  split; [exact Hc|].
  split.
  { rewrite exit_code_run; [rewrite Hc; reflexivity | rewrite Hc].
    unfold not_ok. lia. }
  intros Hle. rewrite (main_exit ascii_flag lines Hd). fold t2.
  rewrite Hc. f_equal. lia.
Qed.

End ValidStream.

(* ================================================================== *)
(** * The two glyph tables *)
(* ================================================================== *)

(** A text with named glyphs in it, and its rendering under a
    table. *)
Inductive piece :=
| Text (s : str)
| Glyph (k : key).

Definition render (th : theme) (ps : list piece) : str :=
  flat_map (fun p => match p with Text s => s | Glyph k => th k end) ps.

(** Two strings that are one text rendered under the symbolic table
    and under the ASCII table. *)
Definition twin (s1 s2 : str) : Prop :=
  exists ps, s1 = render emoji_table ps /\ s2 = render ascii_table ps.

(** Two result records: one trimmed line, classified alike. *)
Definition record_twin (k : key) (r1 r2 : str) : Prop :=
  exists s, r1 = prefixed s (emoji_table k) /\ r2 = prefixed s (ascii_table k).

Lemma render_app th ps qs : render th (ps ++ qs) = render th ps ++ render th qs.
Proof. unfold render. apply flat_map_app. Qed.

Lemma twin_text s : twin s s.
Proof. exists [Text s]. cbn. rewrite app_nil_r. split; reflexivity. Qed.

Lemma twin_glyph k : twin (emoji_table k) (ascii_table k).
Proof. exists [Glyph k]. cbn. rewrite !app_nil_r. split; reflexivity. Qed.

Lemma twin_app s1 s2 u1 u2 : twin s1 s2 -> twin u1 u2 -> twin (s1 ++ u1) (s2 ++ u2).
Proof.
  intros (ps & -> & ->) (qs & -> & ->). exists (ps ++ qs).
  rewrite !render_app. split; reflexivity.
Qed.

Lemma twin_prefixed k s1 s2 :
  twin s1 s2 -> twin (prefixed s1 (emoji_table k)) (prefixed s2 (ascii_table k)).
Proof.
  intros H. unfold prefixed.
  apply twin_app; [apply twin_glyph|]. apply twin_app; [apply twin_text | exact H].
Qed.

Lemma record_twin_twin k r1 r2 : record_twin k r1 r2 -> twin r1 r2.
Proof. intros (s & -> & ->). apply twin_prefixed, twin_text. Qed.

Lemma Forall2_snoc {A B} (R : A -> B -> Prop) l1 l2 x y :
  Forall2 R l1 l2 -> R x y -> Forall2 R (l1 ++ [x]) (l2 ++ [y]).
Proof.
  intros H Hxy. apply Forall2_app; [exact H|]. constructor; [exact Hxy | constructor].
Qed.

(** A result record of either class. *)
Definition result_twin (r1 r2 : str) : Prop :=
  record_twin success r1 r2 \/ record_twin failure r1 r2.

(** The objects of the two runs on one input: the symbolic table on
    the left, the ASCII table on the right. *)
Record related (t1 t2 : Tapper) : Prop := mk_related {
  rel_errors : Forall2 (record_twin failure) (errors t1) (errors t2);
  rel_successes : Forall2 (record_twin success) (successes t1) (successes t2);
  rel_results : Forall2 result_twin (results t1) (results t2);
  rel_numbers : numbers t1 = numbers t2;
  rel_range : range t1 = range t2;
  rel_tap_errors : Forall2 twin (tap_errors t1) (tap_errors t2);
  rel_error_count : error_count t1 = error_count t2;
  rel_emoji : emoji t1 = emoji_table /\ emoji t2 = ascii_table;
  rel_stdout : twin (stdout t1) (stdout t2)
}.

(** Two statements that, from related objects, return related values
    or raise the same exception, and leave related objects. *)
Definition sim {A} (RA : A -> A -> Prop) (c1 c2 : M A) : Prop :=
  forall t1 t2, related t1 t2 ->
    match c1 t1, c2 t2 with
    | (Return a1, u1), (Return a2, u2) => RA a1 a2 /\ related u1 u2
    | (Raise e1, u1), (Raise e2, u2) => e1 = e2 /\ related u1 u2
    | _, _ => False
    end.

Lemma sim_ret {A} (RA : A -> A -> Prop) a1 a2 :
  RA a1 a2 -> sim RA (ret a1) (ret a2).
Proof. intros H t1 t2 Ht. split; assumption. Qed.

Lemma sim_raise {A} (RA : A -> A -> Prop) e : sim RA (raise e) (raise e).
Proof. intros t1 t2 Ht. split; [reflexivity | assumption]. Qed.

Lemma sim_bind {A B} (RA : A -> A -> Prop) (RB : B -> B -> Prop)
    (c1 c2 : M A) (k1 k2 : A -> M B) :
  sim RA c1 c2 ->
  (forall a1 a2, RA a1 a2 -> sim RB (k1 a1) (k2 a2)) ->
  sim RB (bind c1 k1) (bind c2 k2).
Proof.
  intros Hc Hk t1 t2 Ht. specialize (Hc t1 t2 Ht). unfold bind.
  destruct (c1 t1) as [[a1|e1] u1], (c2 t2) as [[a2|e2] u2];
    try contradiction.
  - destruct Hc as [Ha Hu]. apply (Hk a1 a2 Ha u1 u2 Hu).
  - exact Hc.
Qed.

Lemma sim_gets {A} (RA : A -> A -> Prop) (f : Tapper -> A) :
  (forall t1 t2, related t1 t2 -> RA (f t1) (f t2)) -> sim RA (gets f) (gets f).
Proof. intros H t1 t2 Ht. split; [apply H|]; assumption. Qed.

Lemma sim_modify (f1 f2 : Tapper -> Tapper) :
  (forall t1 t2, related t1 t2 -> related (f1 t1) (f2 t2)) ->
  sim eq (modify f1) (modify f2).
Proof. intros H t1 t2 Ht. split; [reflexivity | apply H; assumption]. Qed.

Lemma sim_if {A} (RA : A -> A -> Prop) (b : bool) (c1 c2 d1 d2 : M A) :
  sim RA c1 c2 -> sim RA d1 d2 ->
  sim RA (if b then c1 else d1) (if b then c2 else d2).
Proof. destruct b; auto. Qed.

Lemma sim_for_each {A} (l : list A) (body : A -> M unit) :
  (forall x, sim eq (body x) (body x)) ->
  sim eq (for_each l body) (for_each l body).
Proof.
  intros Hb. induction l as [|x l IH]; cbn [for_each].
  - apply sim_ret. reflexivity.
  - eapply sim_bind; [apply Hb | intros _ _ _; exact IH].
Qed.

Lemma sim_index {A} (l : list A) i : sim eq (index l i) (index l i).
Proof.
  unfold index. destruct (nth_error l i);
    [apply sim_ret; reflexivity | apply sim_raise].
Qed.

(** A statement run on both sides with equal values passed on. *)
Lemma sim_bind_eq {A B} (RB : B -> B -> Prop) (c : M A) (k1 k2 : A -> M B) :
  sim eq c c -> (forall a, sim RB (k1 a) (k2 a)) ->
  sim RB (bind c k1) (bind c k2).
Proof.
  intros Hc Hk. eapply sim_bind; [exact Hc|]. intros a1 a2 <-. apply Hk.
Qed.

(** ** The substitutions of the summary line *)

Lemma replace_from_skip old new pre s :
  replace_from old new (length pre) (pre ++ s) = replace_from old new 0 s.
Proof.
  induction pre as [|c pre IH]; [reflexivity|]. cbn [length app replace_from].
  exact IH.
Qed.

Lemma startswith_app p s : startswith p (p ++ s) = true.
Proof.
  induction p as [|c p IH]; [reflexivity|]. cbn [app startswith].
  rewrite N.eqb_refl. exact IH.
Qed.

Lemma replace_from_match h old new s :
  replace_from (h :: old) new 0 ((h :: old) ++ s)
  = new ++ replace_from (h :: old) new 0 s.
Proof.
  change ((h :: old) ++ s) with (h :: old ++ s).
  cbn [replace_from].
  change (h :: old ++ s) with ((h :: old) ++ s). rewrite startswith_app.
  cbn [length Nat.sub]. rewrite Nat.sub_0_r, replace_from_skip. reflexivity.
Qed.

Lemma replace_from_app_absent h old new pre s :
  Forall (fun c => c <> h) pre ->
  replace_from (h :: old) new 0 (pre ++ s)
  = pre ++ replace_from (h :: old) new 0 s.
Proof.
  induction 1 as [|c pre Hc Hp IH]; [reflexivity|].
  cbn [app replace_from startswith].
  rewrite (proj2 (N.eqb_neq h c)) by congruence. cbn [andb].
  rewrite IH. reflexivity.
Qed.

(** One occurrence of the pattern, after text without its first
    character. *)
Lemma replace_one h old new pre post post' :
  Forall (fun c => c <> h) pre ->
  replace_from (h :: old) new 0 post = post' ->
  replace (h :: old) new (pre ++ (h :: old) ++ post) = pre ++ new ++ post'.
Proof.
  intros Hp Hpost. unfold replace.
  rewrite replace_from_app_absent by exact Hp.
  rewrite replace_from_match, Hpost. reflexivity.
Qed.

(** Shows that a text made of decimal numbers, literals and glyphs
    lacks a character. *)
Ltac absent :=
  repeat (apply Forall_app; split);
  first [ assumption
        | apply decimal_absent; [assumption | lia]
        | eval_lit; repeat constructor; lia ].

(** The glyphs a table may hold for the three substitutions not to
    interfere: no "o" or "t" in the failure glyph, no "t" in the
    success glyph. *)
Definition plain_glyphs (th : theme) : Prop :=
  Forall (fun c => c <> 111%N) (th failure)
  /\ Forall (fun c => c <> 116%N) (th failure)
  /\ Forall (fun c => c <> 116%N) (th success).

Lemma plain_glyphs_tables : plain_glyphs emoji_table /\ plain_glyphs ascii_table.
Proof.
  unfold plain_glyphs. cbn [emoji_table ascii_table]. eval_lit.
  repeat split; repeat constructor; lia.
Qed.

Lemma emoji_summary_shape (th : theme) (d1 d2 d3 : str) :
  plain_glyphs th -> decimal d1 -> decimal d2 -> decimal d3 ->
  replace (lit "tap errors") (th tap_error)
    (replace (lit "ok") (th success)
       (replace (lit "not ok") (th failure)
          (d1 ++ lit " ok  |  " ++ d2 ++ lit " not ok  |  "
           ++ d3 ++ lit " tap errors")))
  = d1 ++ lit " " ++ th success ++ lit "  |  " ++ d2 ++ lit " "
    ++ th failure ++ lit "  |  " ++ d3 ++ lit " " ++ th tap_error.
Proof.
  intros (Fo & Ft & St) H1 H2 H3.
  assert (E1 : replace (lit "not ok") (th failure)
                 (d1 ++ lit " ok  |  " ++ d2 ++ lit " not ok  |  "
                  ++ d3 ++ lit " tap errors")
               = (d1 ++ lit " ") ++ lit "ok"
                 ++ (lit "  |  " ++ d2 ++ lit " " ++ th failure
                     ++ lit "  |  " ++ d3) ++ lit " tap errors").
  { transitivity
      ((d1 ++ lit " ok  |  " ++ d2 ++ lit " ") ++ th failure
       ++ (lit "  |  " ++ d3 ++ lit " tap errors")).
    - replace (d1 ++ lit " ok  |  " ++ d2 ++ lit " not ok  |  "
               ++ d3 ++ lit " tap errors")
        with ((d1 ++ lit " ok  |  " ++ d2 ++ lit " ") ++ lit "not ok"
              ++ (lit "  |  " ++ d3 ++ lit " tap errors"))
        by (eval_lit; rewrite <- ?app_assoc; reflexivity).
      change (lit "not ok") with (110%N :: lit "ot ok").
      apply replace_one; [absent|]. apply replace_from_absent. absent.
    - eval_lit. rewrite <- ?app_assoc. reflexivity. }
  rewrite E1.
  assert (E2 : replace (lit "ok") (th success)
                 ((d1 ++ lit " ") ++ lit "ok"
                  ++ (lit "  |  " ++ d2 ++ lit " " ++ th failure
                      ++ lit "  |  " ++ d3) ++ lit " tap errors")
               = (d1 ++ lit " " ++ th success ++ lit "  |  " ++ d2 ++ lit " "
                  ++ th failure ++ lit "  |  " ++ d3 ++ lit " ")
                 ++ lit "tap errors" ++ []).
  { transitivity
      ((d1 ++ lit " ") ++ th success
       ++ (lit "  |  " ++ d2 ++ lit " " ++ th failure
           ++ lit "  |  " ++ d3) ++ lit " tap errors").
    - change (lit "ok") with (111%N :: lit "k").
      apply replace_one; [absent|].
      rewrite replace_from_app_absent by absent. reflexivity.
    - eval_lit. rewrite <- ?app_assoc. reflexivity. }
  rewrite E2.
  change (lit "tap errors") with (116%N :: lit "ap errors").
  rewrite replace_one with (post' := []); [| absent | reflexivity].
  rewrite app_nil_r. eval_lit. rewrite <- ?app_assoc. reflexivity.
Qed.

Create HintDb sim.

Ltac related_fields :=
  intros [? ? ? ? ? ? ? ? ? ?] [? ? ? ? ? ? ? ? ? ?] [? ? ? ? ? ? ? ? ?];
  cbn [errors successes results numbers range tap_errors error_count emoji
       ascii stdout] in *;
  fields;
  constructor;
  cbn [errors successes results numbers range tap_errors error_count emoji
       ascii stdout];
  try assumption.

Lemma sim_tap_errors_append msg :
  sim eq (tap_errors_append msg) (tap_errors_append msg).
Proof.
  apply sim_modify. related_fields.
  apply Forall2_snoc; [assumption | apply twin_text].
Qed.

Lemma sim_print_twin s1 s2 : twin s1 s2 -> sim eq (print s1) (print s2).
Proof.
  intros H. apply sim_modify. related_fields.
  apply twin_app; [assumption|]. apply twin_app; [exact H | apply twin_text].
Qed.

Lemma sim_print s : sim eq (print s) (print s).
Proof. apply sim_print_twin, twin_text. Qed.

Lemma sim_print_noend s : sim eq (print_noend s) (print_noend s).
Proof.
  apply sim_modify. related_fields.
  apply twin_app; [assumption | apply twin_text].
Qed.

Lemma sim_with_numbers f :
  sim eq (modify (with_numbers f)) (modify (with_numbers f)).
Proof. apply sim_modify. related_fields. congruence. Qed.

Lemma sim_with_range f :
  sim eq (modify (with_range f)) (modify (with_range f)).
Proof. apply sim_modify. related_fields. congruence. Qed.

Lemma sim_gets_range : sim eq (gets range) (gets range).
Proof. apply sim_gets. intros t1 t2 H. apply (rel_range H). Qed.

Lemma sim_gets_numbers : sim eq (gets numbers) (gets numbers).
Proof. apply sim_gets. intros t1 t2 H. apply (rel_numbers H). Qed.

Lemma sim_gets_error_count : sim eq (gets error_count) (gets error_count).
Proof. apply sim_gets. intros t1 t2 H. apply (rel_error_count H). Qed.

Lemma sim_ret_eq {A} (a : A) : sim eq (ret a) (ret a).
Proof. apply sim_ret. reflexivity. Qed.

Lemma sim_assert b : sim eq (assert b) (assert b).
Proof. unfold assert. destruct b; [apply sim_ret_eq | apply sim_raise]. Qed.

#[local] Hint Resolve sim_tap_errors_append sim_print sim_print_noend
  sim_with_numbers sim_with_range sim_gets_range sim_gets_numbers
  sim_gets_error_count sim_ret_eq sim_raise sim_index sim_assert : sim.

(** Steps through the binds of a statement run on both sides. *)
Ltac sim_step :=
  repeat first
    [ solve [auto with sim]
    | progress cbv zeta
    | apply sim_bind_eq; [|intros ?]
    | apply sim_if
    | apply sim_for_each; intros ? ].

Section ThemeSwap.

Variable ud : char -> option N.

Lemma sim_found_number tok : sim eq (found_number ud tok) (found_number ud tok).
Proof.
  unfold found_number. sim_step.
  destruct (int ud tok); sim_step.
Qed.

Lemma sim_maybe_range_body word num :
  sim eq (maybe_range_body word num) (maybe_range_body word num).
Proof. unfold maybe_range_body. sim_step. Qed.

Lemma sim_to_int s : sim eq (to_int ud s) (to_int ud s).
Proof. unfold to_int. destruct (int ud s); auto with sim. Qed.

#[local] Hint Resolve sim_found_number sim_maybe_range_body sim_to_int : sim.

Lemma sim_maybe_range word : sim eq (maybe_range ud word) (maybe_range ud word).
Proof. unfold maybe_range. sim_step. Qed.

#[local] Hint Resolve sim_maybe_range : sim.

Lemma sim_range_and_echo line :
  sim eq (range_and_echo ud line) (range_and_echo ud line).
Proof.
  unfold range_and_echo. sim_step.
  destruct (split (strip line)); sim_step.
Qed.

Lemma sim_process_line line :
  sim eq (process_line ud line) (process_line ud line).
Proof.
  intros t1 t2 Ht. rewrite !process_line_cases.
  destruct (rel_emoji Ht) as [E1 E2]. rewrite E1, E2.
  assert (K : forall tok,
             sim eq (found_number ud tok ;; range_and_echo ud line)
                    (found_number ud tok ;; range_and_echo ud line)).
  { intros tok. apply sim_bind_eq; [apply sim_found_number|].
    intros _. apply sim_range_and_echo. }
  destruct (startswith (lit "ok") (strip line)).
  - destruct (nth_error (split (strip line)) 1) as [tok|];
      [|split; [reflexivity | exact Ht]].
    cbv zeta. apply (K tok). revert Ht. clear.
    revert t1 t2. related_fields.
    + apply Forall2_snoc; [assumption|]. eexists. split; reflexivity.
    + apply Forall2_snoc; [assumption|]. left. eexists. split; reflexivity.
  - destruct (startswith (lit "not ok") (strip line)).
    + destruct (nth_error (split (strip line)) 2) as [tok|];
        [|split; [reflexivity | exact Ht]].
      cbv zeta. apply (K tok). revert Ht. clear.
      revert t1 t2. related_fields.
      * apply Forall2_snoc; [assumption|]. eexists. split; reflexivity.
      * apply Forall2_snoc; [assumption|]. right. eexists. split; reflexivity.
    + apply sim_range_and_echo. exact Ht.
Qed.

Lemma sim_drain lines : sim eq (drain ud lines) (drain ud lines).
Proof. unfold drain. apply sim_for_each. apply sim_process_line. Qed.

Lemma related_lengths t1 t2 :
  related t1 t2 ->
  length (errors t1) = length (errors t2)
  /\ length (successes t1) = length (successes t2)
  /\ length (results t1) = length (results t2)
  /\ length (tap_errors t1) = length (tap_errors t2).
Proof.
  intros H. repeat split; eapply Forall2_length.
  - apply (rel_errors H).
  - apply (rel_successes H).
  - apply (rel_results H).
  - apply (rel_tap_errors H).
Qed.

Lemma sim_finalize : sim eq finalize finalize.
Proof.
  unfold finalize.
  apply sim_bind_eq; [apply sim_gets; intros; apply related_lengths; assumption|].
  intros e.
  apply sim_bind_eq;
    [apply sim_gets; intros t1 t2 H; rewrite (rel_numbers H); reflexivity|].
  intros n.
  apply sim_bind_eq; [apply sim_gets; intros; apply related_lengths; assumption|].
  intros r.
  apply sim_bind_eq;
    [apply sim_gets; intros t1 t2 H; rewrite (rel_range H); reflexivity|].
  intros g. sim_step.
  - apply sim_gets. intros. apply related_lengths. assumption.
  - apply sim_modify. related_fields. reflexivity.
Qed.

Lemma sim_exit_code : sim eq exit_code exit_code.
Proof. unfold exit_code. sim_step. Qed.

Lemma sim_for_each_print l1 l2 :
  Forall2 twin l1 l2 -> sim eq (for_each l1 print) (for_each l2 print).
Proof.
  induction 1 as [|x y l1 l2 Hxy Hl IH]; cbn [for_each].
  - apply sim_ret_eq.
  - eapply sim_bind; [apply sim_print_twin; exact Hxy|].
    intros _ _ _. exact IH.
Qed.

Lemma nonempty_Forall2 {A B} (R : A -> B -> Prop) l1 l2 :
  Forall2 R l1 l2 -> nonempty l1 = nonempty l2.
Proof. destruct 1; reflexivity. Qed.

Lemma result_twin_twin r1 r2 : result_twin r1 r2 -> twin r1 r2.
Proof. intros [H|H]; apply (record_twin_twin H). Qed.

Lemma count_decimal (n : nat) : decimal (str_of_int (Z.of_nat n)).
Proof. apply str_of_int_decimal. lia. Qed.

(** The lines of the summary under the two tables are twins. *)
Lemma sim_summarize : sim (Forall2 twin) summarize summarize.
Proof.
  unfold summarize.
  eapply sim_bind with
    (RA := fun e1 e2 : theme => e1 = emoji_table /\ e2 = ascii_table).
  { apply sim_gets. intros t1 t2 H. apply (rel_emoji H). }
  intros e1 e2 [-> ->].
  eapply sim_bind with (RA := eq).
  { apply sim_modify. related_fields.
    match goal with
    | H : Forall2 twin _ _ |- _ =>
        induction H; cbn [List.map]; constructor;
        [apply twin_prefixed; assumption | assumption]
    end. }
  intros _ _ _.
  apply sim_bind_eq; [apply sim_gets_error_count|]. intros ec.
  apply sim_bind_eq; [apply sim_assert|]. intros _.
  eapply sim_bind with (RA := related).
  { apply sim_gets. intros t1 t2 H. exact H. }
  intros t1 t2 H. apply sim_ret.
  destruct (related_lengths H) as (Le & Ls & Lr & Lt).
  destruct plain_glyphs_tables as [Pe Pa].
  rewrite !emoji_summary_shape by
      first [assumption | apply count_decimal].
  rewrite <- Le, <- Ls, <- Lr, <- Lt, <- (rel_error_count H), <- (rel_range H).
  rewrite <- (nonempty_Forall2 (rel_results H)),
    <- (nonempty_Forall2 (rel_errors H)),
    <- (nonempty_Forall2 (rel_successes H)),
    <- (nonempty_Forall2 (rel_tap_errors H)).
  assert (Tr : Forall2 twin (results t1) (results t2)).
  { eapply Forall2_impl; [|apply (rel_results H)]. apply result_twin_twin. }
  assert (Te : Forall2 twin (errors t1) (errors t2)).
  { eapply Forall2_impl; [|apply (rel_errors H)].
    intros a b. apply record_twin_twin. }
  pose proof (rel_tap_errors H) as Tt.
  assert (Ts : twin
                 (str_of_int (Z.of_nat (length (successes t1))) ++ lit " "
                  ++ emoji_table success ++ lit "  |  "
                  ++ str_of_int (Z.of_nat (length (errors t1))) ++ lit " "
                  ++ emoji_table failure ++ lit "  |  "
                  ++ str_of_int (Z.of_nat (length (tap_errors t1))) ++ lit " "
                  ++ emoji_table tap_error)
                 (str_of_int (Z.of_nat (length (successes t1))) ++ lit " "
                  ++ ascii_table success ++ lit "  |  "
                  ++ str_of_int (Z.of_nat (length (errors t1))) ++ lit " "
                  ++ ascii_table failure ++ lit "  |  "
                  ++ str_of_int (Z.of_nat (length (tap_errors t1))) ++ lit " "
                  ++ ascii_table tap_error)).
  { repeat first [ apply twin_glyph
                 | apply twin_app; [first [apply twin_text | apply twin_glyph]|] ]. }
  repeat apply Forall2_app.
  - destruct (nonempty (results t1)); [|constructor].
    constructor; [apply twin_text|].
    constructor; [apply twin_prefixed, twin_text | exact Tr].
  - destruct (nonempty (errors t1)); [|constructor].
    constructor; [apply twin_text|].
    constructor; [apply twin_prefixed, twin_text | exact Te].
  - destruct (nonempty (tap_errors t1)); [|constructor].
    constructor; [apply twin_prefixed, twin_text | exact Tt].
  - constructor; [apply twin_text|].
    constructor; [apply twin_text|].
    constructor; [|constructor].
    destruct (error_count t1 =? 0).
    + apply twin_prefixed. apply twin_app; [apply twin_text | exact Ts].
    + cbv zeta.
      destruct (nonempty (tap_errors t1) || negb (nonempty (successes t1)))%bool;
        apply twin_prefixed;
        (apply twin_app; [apply twin_text|]);
        (apply twin_app; [apply twin_text | exact Ts]).
Qed.

(** [main] after the choice of the table. *)
Definition report (lines : list str) : M Z :=
  drain ud lines ;;
  finalize ;;
  summary <- summarize ;;
  for_each summary print ;;
  exit_code.

Lemma main_report (ascii_flag : bool) (lines : list str) :
  main ud ascii_flag lines init = report lines (fresh ascii_flag).
Proof. destruct ascii_flag; reflexivity. Qed.

Lemma sim_report lines : sim eq (report lines) (report lines).
Proof.
  unfold report.
  apply sim_bind_eq; [apply sim_drain|]. intros _.
  apply sim_bind_eq; [apply sim_finalize|]. intros _.
  eapply sim_bind; [apply sim_summarize|]. intros l1 l2 Hl.
  eapply sim_bind; [apply sim_for_each_print; exact Hl|]. intros _ _ _.
  apply sim_exit_code.
Qed.

Lemma related_fresh : related (fresh false) (fresh true).
Proof.
  constructor; cbn; try constructor; try reflexivity. apply twin_text.
Qed.

(** C9: on one input, the run with the symbolic table and the run
    with the ASCII table end alike (the same exit code, or the same
    exception), with as many successes, failures, results and
    protocol errors, the same seen numbers, range and [error_count];
    the results are pairwise one trimmed line classified alike
    (success or failure) and prefixed by the glyph of its class; and
    the two outputs are one text with named glyphs, rendered under
    either table. *)
Theorem theme_swap (lines : list str) :
  let symbolic := main ud false lines init in
  let plain := main ud true lines init in
  fst plain = fst symbolic
  /\ length (successes (snd plain)) = length (successes (snd symbolic))
  /\ length (errors (snd plain)) = length (errors (snd symbolic))
  /\ length (results (snd plain)) = length (results (snd symbolic))
  /\ length (tap_errors (snd plain)) = length (tap_errors (snd symbolic))
  /\ numbers (snd plain) = numbers (snd symbolic)
  /\ range (snd plain) = range (snd symbolic)
  /\ error_count (snd plain) = error_count (snd symbolic)
  /\ Forall2
       (fun r1 r2 =>
          exists k s, (k = success \/ k = failure)
                      /\ r1 = prefixed s (emoji_table k)
                      /\ r2 = prefixed s (ascii_table k))
       (results (snd symbolic)) (results (snd plain))
  /\ exists template : list piece,
       stdout (snd symbolic) = render emoji_table template
       /\ stdout (snd plain) = render ascii_table template.
Proof.
  cbv zeta. rewrite !main_report.
  pose proof (sim_report lines related_fresh) as H.
  assert (K : fst (report lines (fresh true)) = fst (report lines (fresh false))
              /\ related (snd (report lines (fresh false)))
                         (snd (report lines (fresh true)))).
  { destruct (report lines (fresh false)) as [[a1|e1] u1],
             (report lines (fresh true)) as [[a2|e2] u2];
      try contradiction; destruct H as [<- Hu]; split;
      first [reflexivity | exact Hu]. }
  destruct K as [K1 K2].
  destruct (related_lengths K2) as (Le & Ls & Lr & Lt).
  split; [exact K1|].
  split; [symmetry; exact Ls|]. split; [symmetry; exact Le|].
  split; [symmetry; exact Lr|]. split; [symmetry; exact Lt|].
  split; [symmetry; apply (rel_numbers K2)|].
  split; [symmetry; apply (rel_range K2)|].
  split; [symmetry; apply (rel_error_count K2)|].
  split; [|apply (rel_stdout K2)].
  eapply Forall2_impl; [|apply (rel_results K2)].
  intros r1 r2 [(x & -> & ->)|(x & -> & ->)].
  - exists success, x. repeat split. left. reflexivity.
  - exists failure, x. repeat split. right. reflexivity.
Qed.

End ThemeSwap.

(* ================================================================== *)
(** * Runs on given inputs *)
(* ================================================================== *)

(** The inputs are ASCII text, on which [int] does not consult the
    digit table; the runs take the table without entry. *)

Definition nl : str := [10%N].

(** The example of the module documentation. *)
Definition basic : list str :=
  [ lit "1..4" ++ nl;
    lit "ok 1 - Input file opened" ++ nl;
    lit "not ok 2 - First line of the input valid" ++ nl;
    lit "ok 3 - Read the rest of the file" ++ nl;
    lit "not ok 4 - Summarized correctly # TODO Not written yet" ++ nl ].

Definition basic_results : list tap_result :=
  [ mk_result true 1 (lit " - Input file opened" ++ nl);
    mk_result false 2 (lit " - First line of the input valid" ++ nl);
    mk_result true 3 (lit " - Read the rest of the file" ++ nl);
    mk_result false 4
      (lit " - Summarized correctly # TODO Not written yet" ++ nl) ].

Lemma basic_lines : basic = range_line 4 nl :: List.map result_line basic_results.
Proof. reflexivity. Qed.

(** C2: the claim does not hold of the code: [process_line] raises
    [IndexError] on a line that is just "ok" or "not ok" (there is no
    second or third word), and [ValueError] on a line whose first word
    is "a..b" ([maybe_range] passes the non-numeric parts to [int]
    unguarded); the exception leaves [drain], so the lines after it
    are not processed. *)
Theorem process_line_raises :
  process_line ascii_only (lit "ok" ++ nl) init = (Raise IndexError, init)
  /\ process_line ascii_only (lit "not ok" ++ nl) init
     = (Raise IndexError, init)
  /\ fst (process_line ascii_only (lit "a..b" ++ nl) init) = Raise ValueError
  /\ tap_errors (snd (process_line ascii_only (lit "a..b" ++ nl) init)) = []
  /\ (let r := drain ascii_only
                 [lit "a..b" ++ nl; lit "1..1" ++ nl; lit "ok 1" ++ nl] init in
      fst r = Raise ValueError
      /\ range (snd r) = [] /\ results (snd r) = []
      /\ stdout (snd r) = lit "a b" ++ nl).
Proof. vm_compute. repeat split. Qed.

(** C4, as stated, fails on the range declaration "1..4": before the
    echo of the line, [maybe_range] prints "1 4". *)
Lemma range_declaration_printed :
  let line := lit "1..4" ++ nl in
  let t' := snd (process_line ascii_only line init) in
  fst (process_line ascii_only line init) = Return tt
  /\ stdout t' = lit "1 4" ++ nl ++ line
  /\ stdout t' <> stdout init ++ line.
Proof.
  vm_compute. split; [reflexivity|]. split; [reflexivity|].
  intros H. discriminate H.
Qed.

(** C5, as stated, fails on the first result line [ok abc]: after the
    "Invalid test number" error the no-range check reports the raw
    token as well, and the raw token is appended to [numbers]. *)
Lemma found_number_falls_through :
  let t' := snd (found_number ascii_only (lit "abc") init) in
  int ascii_only (lit "abc") = None
  /\ tap_errors t'
     = [lit "Invalid test number: 'abc'";
        lit "No test range defined before result no. abc"]
  /\ numbers t' = [VStr (lit "abc")].
Proof. vm_compute. repeat split. Qed.

(** C6, as stated, fails on the object of an empty input: the first
    [finalize] reports a missing range and missing results and counts
    2, the second reports them again and counts 4. *)
Lemma finalize_not_idempotent :
  let t1 := snd (finalize (snd (drain ascii_only [] init))) in
  let t2 := snd (finalize t1) in
  error_count t1 = 2 /\ error_count t2 = 4
  /\ length (tap_errors t1) = 2%nat /\ length (tap_errors t2) = 4%nat.
Proof. vm_compute. repeat split. Qed.

(** C7, as stated, fails on the line "okay 1": its first word is
    not "ok", and it is recorded as a success with test number 1. *)
Lemma okay_recorded :
  let line := lit "okay 1" ++ nl in
  let t' := snd (process_line ascii_only line init) in
  fst (process_line ascii_only line init) = Return tt
  /\ nth_error (split (strip line)) 0 = Some (lit "okay")
  /\ lit "okay" <> lit "ok"
  /\ successes t' = [prefixed (lit "okay 1") (emoji_table success)]
  /\ results t' = [prefixed (lit "okay 1") (emoji_table success)]
  /\ numbers t' = [VInt 1].
Proof.
  vm_compute. repeat split. intros H. discriminate H.
Qed.

(** C8, as stated, fails on the finalized object of an empty input:
    [summarize] rewrites the two protocol errors, and a second
    [summarize] yields other lines than the first. *)
Lemma summarize_mutates :
  let t := snd (finalize (snd (drain ascii_only [] init))) in
  tap_errors (snd (summarize t)) <> tap_errors t
  /\ fst (summarize (snd (summarize t))) <> fst (summarize t).
Proof.
  vm_compute. split; intros H; discriminate H.
Qed.

(** ** The theorems at given inputs *)

(** C1 on the example of the module documentation: two of its four
    results are "not ok", and [main] exits with 2. *)
Lemma valid_stream_error_count_witness :
  (1 <= 4 /\ length basic_results = Z.to_nat 4)
  /\ fst (main ascii_only false basic init) = Return 2.
Proof.
  split; [split; [lia | reflexivity]|].
  destruct (@valid_stream_error_count ascii_only false 4 nl basic_results)
    as (t1 & t2 & _ & _ & _ & _ & _ & H).
  - lia.
  - reflexivity.
  - reflexivity.
  - repeat constructor; cbn; intuition discriminate.
  - intros r [<-|[<-|[<-|[<-|[]]]]]; cbn; split; try lia; reflexivity.
  - rewrite basic_lines. apply H. cbn. lia.
Defined.

(** C3 on 101 failures without a range: the count exceeds 100 and
    the exit code is 100. *)
Lemma exit_code_clamped_witness :
  let t := snd (finalize
                  (snd (drain ascii_only
                          (List.repeat (lit "not ok 1" ++ nl) 101) init))) in
  100 < error_count t /\ exit_code t = (Return 100, t).
Proof.
  cbv zeta.
  pose proof (exit_code_clamped
                (snd (drain ascii_only
                        (List.repeat (lit "not ok 1" ++ nl) 101) init))) as H.
  cbv zeta in H. destruct H as (_ & _ & _ & _ & H).
  assert (L : 100 < error_count
                (snd (finalize
                        (snd (drain ascii_only
                                (List.repeat (lit "not ok 1" ++ nl) 101)
                                init)))))
    by (vm_compute; reflexivity).
  split; [exact L | exact (H L)].
Defined.

(** C4 on a result line, on the example, and on the whole run. *)
Lemma echo_and_range_print_witness :
  stdout (snd (process_line ascii_only (lit "ok 1" ++ nl) init))
  = lit "ok 1" ++ nl
  /\ stdout (snd (drain ascii_only basic init))
     = concat (List.map (fun l => extra_print l ++ l) basic)
  /\ exists summary,
      stdout (snd (main ascii_only true basic init))
      = concat (List.map (fun l => extra_print l ++ l) basic)
        ++ concat (List.map (fun l => l ++ nl) summary).
Proof.
  destruct (echo_and_range_print ascii_only) as (H1 & H2 & H3).
  split; [|split].
  - apply (H1 (lit "ok 1" ++ nl) init). vm_compute. reflexivity.
  - apply (H2 basic init). vm_compute. reflexivity.
  - apply (H3 true basic 2). vm_compute. reflexivity.
Defined.

(** C5 on the token "abc" with no range declared. *)
Lemma found_number_invalid_witness :
  int ascii_only (lit "abc") = None
  /\ numbers (snd (found_number ascii_only (lit "abc") init))
     = [VStr (lit "abc")].
Proof.
  split; [reflexivity|].
  destruct (@found_number_invalid ascii_only (lit "abc") init)
    as (_ & _ & H); [reflexivity | exact H].
Defined.

(** C6 on the example: the first [finalize] has nothing to report,
    and the second changes nothing. *)
Lemma finalize_again_witness :
  let t := snd (drain ascii_only basic init) in
  finalize_messages t = []
  /\ snd (finalize (snd (finalize t))) = snd (finalize t).
Proof.
  cbv zeta.
  pose proof (finalize_again (snd (drain ascii_only basic init))) as H.
  cbv zeta in H. destruct H as (_ & _ & _ & _ & H).
  assert (E : finalize_messages (snd (drain ascii_only basic init)) = [])
    by (vm_compute; reflexivity).
  split; [exact E | exact (H E)].
Defined.

(** C7 on a failure line. *)
Lemma result_records_witness :
  let line := lit "not ok 2 - x" ++ nl in
  let t' := snd (process_line ascii_only line init) in
  process_line ascii_only line init = (Return tt, t')
  /\ exists tok,
      nth_error (split (strip line)) 2 = Some tok
      /\ errors t' = errors init ++ [prefixed (strip line) (emoji init failure)]
      /\ results t'
         = results init ++ [prefixed (strip line) (emoji init failure)]
      /\ successes t' = successes init
      /\ numbers t' = numbers (snd (found_number ascii_only tok init)).
Proof.
  cbv zeta.
  assert (E : process_line ascii_only (lit "not ok 2 - x" ++ nl) init
              = (Return tt,
                 snd (process_line ascii_only (lit "not ok 2 - x" ++ nl) init)))
    by (vm_compute; reflexivity).
  split; [exact E|].
  exact (result_records ascii_only (lit "not ok 2 - x" ++ nl) init E).
Defined.

(** C8 on the example, which records no protocol error. *)
Lemma summarize_frame_witness :
  let t := snd (finalize (snd (drain ascii_only basic init))) in
  tap_errors t = []
  /\ snd (summarize t) = t
  /\ summarize (snd (summarize t)) = summarize t.
Proof.
  cbv zeta.
  pose proof (summarize_frame (snd (drain ascii_only basic init))) as H.
  cbv zeta in H. destruct H as (_ & _ & _ & H).
  assert (E : tap_errors
                (snd (finalize (snd (drain ascii_only basic init)))) = [])
    by (vm_compute; reflexivity).
  split; [exact E | exact (H E)].
Defined.

(** C10 on a result line processed by a new object. *)
Lemma no_duplicates_witness :
  (NoDup (numbers init) /\ NoDup (range init))
  /\ NoDup (numbers (snd (process_line ascii_only (lit "ok 1" ++ nl) init)))
  /\ NoDup (range (snd (process_line ascii_only (lit "ok 1" ++ nl) init))).
Proof.
  assert (H0 : NoDup (numbers init) /\ NoDup (range init))
    by (split; constructor).
  split; [exact H0|].
  destruct (no_duplicates ascii_only) as (_ & H & _).
  exact (H (lit "ok 1" ++ nl) init H0).
Defined.

(* ================================================================== *)
(** * Further properties of the methods *)
(* ================================================================== *)

(** ** Decimal text of any integer *)






(** ** [found_number] on an integer *)

Section MoreMethods.

Variable ud : char -> option N.




(** ** [maybe_range] on a declaration *)

(** The message of an overlap. *)
Definition overlap_message (word : str) (num : Z) : str :=
  lit "Overlapping range '" ++ word ++ lit "' at '" ++ str_of_int num
  ++ lit "'".

Lemma existsb_snoc (k x : Z) (l : list Z) :
  existsb (Z.eqb k) (l ++ [x]) = existsb (Z.eqb k) l || Z.eqb k x.
Proof. rewrite existsb_app. cbn. rewrite orb_false_r. reflexivity. Qed.

Lemma filter_ext_in_bool {A} (f g : A -> bool) (l : list A) :
  (forall x, In x l -> f x = g x) -> filter f l = filter g l.
Proof.
  induction l as [|x l IH]; intros H; [reflexivity|]. cbn [filter].
  rewrite (H x (or_introl eq_refl)), IH; [reflexivity|].
  intros y Hy. apply H. right. exact Hy.
Qed.

(** The loop of [maybe_range] over distinct numbers: those not in
    [range] are appended to it in order, the others are reported in
    order. *)
Lemma for_each_range (w : str) (l : list Z) : forall t : Tapper,
  NoDup l ->
  for_each l (maybe_range_body w) t
  = (Return tt,
     with_tap_errors
       (fun e => e ++ List.map (overlap_message w)
                        (filter (fun k => existsb (Z.eqb k) (range t)) l))
       (with_range
          (fun r => r ++ filter (fun k => negb (existsb (Z.eqb k) (range t))) l)
          t)).
Proof.
  induction l as [|x l IH]; intros t Hl; cbn [for_each].
  - unfold ret. destruct t; fields. cbn [filter List.map].
    rewrite !app_nil_r. reflexivity.
  - inversion Hl as [|? ? Hx Hl']; subst.
    unfold bind. unfold maybe_range_body at 1. run_monad.
    cbn [filter]. destruct (existsb (Z.eqb x) (range t)) eqn:E; cbn [negb].
    + rewrite IH by exact Hl'. unfold overlap_message at 2.
      destruct t; fields. cbn [List.map]. rewrite <- !app_assoc. reflexivity.
    + rewrite IH by exact Hl'.
      assert (K : forall k, In k l ->
                existsb (Z.eqb k) (range t ++ [x]) = existsb (Z.eqb k) (range t)).
      { intros k Hk. rewrite existsb_snoc.
        destruct (Z.eqb_spec k x) as [->|_]; [contradiction|].
        apply orb_false_r. }
      destruct t as [e s rs n rg te ec em asc out]; fields. cbn [range] in K.
      rewrite (filter_ext_in_bool (fun k => existsb (Z.eqb k) (rg ++ [x]))
                 (fun k => existsb (Z.eqb k) rg) l K).
      rewrite (filter_ext_in_bool
                 (fun k => negb (existsb (Z.eqb k) (rg ++ [x])))
                 (fun k => negb (existsb (Z.eqb k) rg)) l)
        by (intros k Hk; rewrite (K k Hk); reflexivity).
      rewrite <- !app_assoc. reflexivity.
Qed.






(** ** Whole lines *)









(** ** When [process_line] raises *)

Definition is_int (s : str) : bool :=
  match int ud s with Some _ => true | None => false end.

(** The words on which [maybe_range] raises: after the replacement
    no dot is left, there are exactly two parts, and one of them is
    no integer. *)
Definition word_raises (w : str) : bool :=
  let processed := replace (lit "..") (lit " ") w in
  negb (contains (lit ".") processed)
  && match split processed with
     | [p0; p1] => negb (is_int p0 && is_int p1)
     | _ => false
     end.

(** The exception a line raises, if any. *)
Definition raised (line : str) : option exn :=
  let stripped := strip line in
  let seq := split stripped in
  if startswith (lit "ok") stripped && Nat.ltb (length seq) 2
  then Some IndexError
  else if negb (startswith (lit "ok") stripped)
          && startswith (lit "not ok") stripped
          && Nat.ltb (length seq) 3
  then Some IndexError
  else match seq with
       | first :: _ =>
           if contains (lit "..") first && word_raises first
           then Some ValueError else None
       | [] => None
       end.

Definition outcome_of (e : option exn) : outcome unit :=
  match e with
  | Some e => Raise e
  | None => Return tt
  end.

Lemma maybe_range_outcome (w : str) (t : Tapper) :
  fst (maybe_range ud w t)
  = if word_raises w then Raise ValueError else Return tt.
Proof.
  unfold maybe_range, word_raises, is_int. cbv zeta.
  set (p := replace (lit "..") (lit " ") w).
  unfold bind at 1. unfold print at 1, modify at 1. cbv beta iota.
  destruct (contains (lit ".") p); cbn [negb andb]; [reflexivity|].
  destruct (split p) as [|p0 [|p1 [|p2 ps]]]; cbn [length Nat.eqb negb];
    try reflexivity.
  unfold index. cbn [nth_error]. unfold to_int. run_monad.
  destruct (int ud p0) as [a|]; cbn [andb negb fst]; [|reflexivity].
  destruct (int ud p1) as [b|]; cbn [andb negb fst]; [|reflexivity].
  destruct (a >? b); [reflexivity|].
  rewrite for_each_range by apply py_range_NoDup. reflexivity.
Qed.

Lemma range_and_echo_outcome (line : str) (t : Tapper) :
  fst (range_and_echo ud line t)
  = match split (strip line) with
    | first :: _ =>
        if contains (lit "..") first && word_raises first
        then Raise ValueError else Return tt
    | [] => Return tt
    end.
Proof.
  unfold range_and_echo. unfold bind.
  destruct (split (strip line)) as [|first seq]; [reflexivity|].
  destruct (contains (lit "..") first); cbn [andb]; [|reflexivity].
  pose proof (maybe_range_outcome first t) as H.
  destruct (maybe_range ud first t) as [[[]|e] t1]; cbn [fst] in H;
    destruct (word_raises first); try discriminate H; try reflexivity.
  exact H.
Qed.

Lemma nth_error_short {A} (l : list A) (i : nat) :
  Nat.ltb (length l) (S i) = match nth_error l i with
                             | Some _ => false
                             | None => true
                             end.
Proof.
  destruct (nth_error l i) eqn:E.
  - apply Nat.ltb_ge. assert (i < length l)%nat; [|lia].
    apply nth_error_Some. congruence.
  - apply Nat.ltb_lt. apply nth_error_None in E. lia.
Qed.

(** Whether [process_line] raises, and what, depends on the line
    only; [IndexError] leaves the object as it was. *)
Lemma process_line_outcome (line : str) (t : Tapper) :
  fst (process_line ud line t) = outcome_of (raised line)
  /\ (raised line = Some IndexError -> snd (process_line ud line t) = t).
Proof.
  rewrite process_line_cases. unfold raised. cbv zeta.
  assert (K : forall tok u,
             fst ((found_number ud tok ;; range_and_echo ud line) u)
             = match split (strip line) with
               | first :: _ =>
                   if contains (lit "..") first && word_raises first
                   then Raise ValueError else Return tt
               | [] => Return tt
               end).
  { intros tok u. unfold bind.
    pose proof (found_number_returns ud tok u) as Hf.
    destruct (found_number ud tok u) as [[[]|e] v]; cbn [fst] in Hf;
      [|discriminate Hf].
    apply range_and_echo_outcome. }
  assert (V : forall o : outcome unit,
             match split (strip line) with
             | first :: _ =>
                 if contains (lit "..") first && word_raises first
                 then @Raise unit ValueError else Return tt
             | [] => Return tt
             end
             = outcome_of
                 match split (strip line) with
                 | first :: _ =>
                     if contains (lit "..") first && word_raises first
                     then Some ValueError else None
                 | [] => None
                 end).
  { intros _. destruct (split (strip line)) as [|first seq]; [reflexivity|].
    destruct (contains (lit "..") first && word_raises first); reflexivity. }
  assert (W : match split (strip line) with
              | first :: _ =>
                  if contains (lit "..") first && word_raises first
                  then Some ValueError else None
              | [] => None
              end <> Some IndexError).
  { destruct (split (strip line)) as [|first seq]; [discriminate|].
    destruct (contains (lit "..") first && word_raises first); discriminate. }
  destruct (startswith (lit "ok") (strip line)); cbn [andb negb].
  - rewrite (nth_error_short (split (strip line)) 1).
    destruct (nth_error (split (strip line)) 1) as [tok|].
    + cbv zeta. rewrite K, (V (Return tt)). split; [reflexivity|].
      intros H. contradiction.
    + split; reflexivity.
  - destruct (startswith (lit "not ok") (strip line)); cbn [andb].
    + rewrite (nth_error_short (split (strip line)) 2).
      destruct (nth_error (split (strip line)) 2) as [tok|].
      * cbv zeta. rewrite K, (V (Return tt)). split; [reflexivity|].
        intros H. contradiction.
      * split; reflexivity.
    + rewrite range_and_echo_outcome, (V (Return tt)). split; [reflexivity|].
      intros H. contradiction.
Qed.


(** ** What streaming never does *)

Definition extends {A} (l l' : list A) : Prop := exists suf, l' = l ++ suf.

Lemma extends_refl {A} (l : list A) : extends l l.
Proof. exists []. rewrite app_nil_r. reflexivity. Qed.

Lemma extends_app {A} (l l' x : list A) : extends l l' -> extends l (l' ++ x).
Proof. intros [suf ->]. exists (suf ++ x). rewrite app_assoc. reflexivity. Qed.

(** The object [t] is the object [t0] with text appended to its
    sequences. *)
Record grows (t0 t : Tapper) : Prop := mk_grows {
  grows_errors : extends (errors t0) (errors t);
  grows_successes : extends (successes t0) (successes t);
  grows_results : extends (results t0) (results t);
  grows_numbers : extends (numbers t0) (numbers t);
  grows_range : extends (range t0) (range t);
  grows_tap_errors : extends (tap_errors t0) (tap_errors t);
  grows_stdout : extends (stdout t0) (stdout t);
  grows_emoji : emoji t = emoji t0;
  grows_ascii : ascii t = ascii t0;
  grows_error_count : error_count t = error_count t0
}.

Lemma grows_refl t : grows t t.
Proof. constructor; try reflexivity; apply extends_refl. Qed.

Ltac grows_fields :=
  intros [? ? ? ? ? ? ? ? ? ?] [? ? ? ? ? ? ? ? ? ?];
  cbn [errors successes results numbers range tap_errors error_count emoji
       ascii stdout] in *;
  fields; constructor;
  cbn [errors successes results numbers range tap_errors error_count emoji
       ascii stdout];
  try assumption; try (apply extends_app; assumption).

Lemma keeps_grows_appends t0 :
  (forall x, keeps (grows t0) (modify (with_errors (fun l => l ++ x))))
  /\ (forall x, keeps (grows t0) (modify (with_successes (fun l => l ++ x))))
  /\ (forall x, keeps (grows t0) (modify (with_results (fun l => l ++ x))))
  /\ (forall x, keeps (grows t0) (modify (with_numbers (fun l => l ++ x))))
  /\ (forall x, keeps (grows t0) (modify (with_range (fun l => l ++ x))))
  /\ (forall x, keeps (grows t0) (modify (with_tap_errors (fun l => l ++ x))))
  /\ (forall x, keeps (grows t0) (modify (with_stdout (fun l => l ++ x)))).
Proof.
  repeat match goal with |- _ /\ _ => split end;
    intros x; apply keeps_modify; grows_fields.
Qed.

Lemma keeps_grows_tap_errors_append t0 msg :
  keeps (grows t0) (tap_errors_append msg).
Proof. apply keeps_grows_appends. Qed.

Lemma keeps_grows_print t0 s : keeps (grows t0) (print s).
Proof. apply keeps_grows_appends. Qed.

Lemma keeps_grows_print_noend t0 s : keeps (grows t0) (print_noend s).
Proof. apply keeps_grows_appends. Qed.

Lemma keeps_grows_found_number t0 tok : keeps (grows t0) (found_number ud tok).
Proof.
  pose proof (@keeps_grows_tap_errors_append t0) as Ht.
  destruct (@keeps_grows_appends t0) as (_ & _ & _ & Hn & _).
  unfold found_number. keeps_step.
  destruct (int ud tok); keeps_step.
Qed.

Lemma keeps_grows_maybe_range t0 word : keeps (grows t0) (maybe_range ud word).
Proof.
  pose proof (@keeps_grows_tap_errors_append t0) as Ht.
  pose proof (@keeps_grows_print t0) as Hp.
  destruct (@keeps_grows_appends t0) as (_ & _ & _ & _ & Hr & _).
  pose proof (@keeps_to_int ud (grows t0)) as Hi.
  unfold maybe_range. keeps_step.
Qed.

Lemma keeps_grows_process_line t0 line :
  keeps (grows t0) (process_line ud line).
Proof.
  pose proof (@keeps_grows_found_number t0) as Hf.
  pose proof (@keeps_grows_maybe_range t0) as Hm.
  pose proof (@keeps_grows_print_noend t0) as Hp.
  destruct (@keeps_grows_appends t0) as (He & Hs & Hr & _).
  unfold process_line. keeps_step.
  - destruct (snd a0); auto with keeps.
  - destruct (fst a0); auto with keeps.
  - destruct (split (strip line)); keeps_step.
Qed.

Lemma grows_drain lines t : grows t (snd (drain ud lines t)).
Proof.
  unfold drain. apply (keeps_for_each (P := grows t)); [|apply grows_refl].
  intros line. apply keeps_grows_process_line.
Qed.

(** X5: draining only appends: whatever the lines, and whether the
    drain returns or raises, every sequence of the object ([errors],
    [successes], [results], [numbers], [range], [tap_errors]) and the
    output keep what they held and gain text at their end; the glyph
    table and [error_count] are not touched. *)
Theorem drain_only_appends (lines : list str) (t : Tapper) :
  let t' := snd (drain ud lines t) in
  extends (errors t) (errors t')
  /\ extends (successes t) (successes t')
  /\ extends (results t) (results t')
  /\ extends (numbers t) (numbers t')
  /\ extends (range t) (range t')
  /\ extends (tap_errors t) (tap_errors t')
  /\ extends (stdout t) (stdout t')
  /\ emoji t' = emoji t
  /\ error_count t' = error_count t.
Proof.
  cbv zeta. destruct (grows_drain lines t).
  repeat split; assumption.
Qed.

(** ** The records of a drained input *)

(** The two tests of [process_line] on a line. *)
Definition is_ok (line : str) : bool := startswith (lit "ok") (strip line).

Definition is_not_ok (line : str) : bool :=
  negb (is_ok line) && startswith (lit "not ok") (strip line).

Lemma process_line_records (line : str) (t t' : Tapper) :
  process_line ud line t = (Return tt, t') ->
  successes t'
  = successes t
    ++ (if is_ok line then [prefixed (strip line) (emoji t success)] else [])
  /\ errors t'
     = errors t
       ++ (if is_not_ok line
           then [prefixed (strip line) (emoji t failure)] else [])
  /\ results t'
     = results t
       ++ (if is_ok line then [prefixed (strip line) (emoji t success)]
           else if is_not_ok line
                then [prefixed (strip line) (emoji t failure)] else [])
  /\ emoji t' = emoji t.
Proof.
  rewrite process_line_cases. unfold is_not_ok, is_ok. intros H.
  assert (K : forall tok u,
             (found_number ud tok ;; range_and_echo ud line) u = (Return tt, t') ->
             errors t' = errors u /\ successes t' = successes u
             /\ results t' = results u /\ emoji t' = emoji u).
  { intros tok u Hu. apply found_number_then in Hu.
    pose proof (range_and_echo_frame ud line (snd (found_number ud tok u))) as R.
    rewrite Hu in R. cbv zeta in R. cbn [snd] in R.
    destruct R as ((R1 & R2 & R3 & R4 & _) & _).
    destruct (found_number_frame ud tok u) as ((F1 & F2 & F3 & F4 & _) & _).
    rewrite R1, R2, R3, R4, F1, F2, F3, F4. repeat split. }
  destruct (startswith (lit "ok") (strip line)); cbn [negb andb].
  - destruct (nth_error (split (strip line)) 1) as [tok|]; [|discriminate H].
    cbv zeta in H. destruct (K _ _ H) as (K1 & K2 & K3 & K4).
    rewrite K1, K2, K3, K4. destruct t; fields. rewrite app_nil_r.
    repeat split.
  - destruct (startswith (lit "not ok") (strip line)).
    + destruct (nth_error (split (strip line)) 2) as [tok|]; [|discriminate H].
      cbv zeta in H. destruct (K _ _ H) as (K1 & K2 & K3 & K4).
      rewrite K1, K2, K3, K4. destruct t; fields. rewrite app_nil_r.
      repeat split.
    + pose proof (range_and_echo_frame ud line t) as R.
      rewrite H in R. cbv zeta in R. cbn [snd] in R.
      destruct R as ((R1 & R2 & R3 & R4 & _) & _).
      rewrite R1, R2, R3, R4, !app_nil_r. repeat split.
Qed.

(** The record of a line under a table. *)
Definition themed (th : theme) (line : str) : str :=
  prefixed (strip line) (th (if is_ok line then success else failure)).

Lemma drain_records_from (lines : list str) : forall t t' : Tapper,
  drain ud lines t = (Return tt, t') ->
  successes t'
  = successes t ++ List.map (themed (emoji t)) (filter is_ok lines)
  /\ errors t'
     = errors t ++ List.map (themed (emoji t)) (filter is_not_ok lines)
  /\ results t'
     = results t
       ++ List.map (themed (emoji t))
            (filter (fun l => is_ok l || is_not_ok l) lines)
  /\ emoji t' = emoji t.
Proof.
  unfold drain.
  induction lines as [|l lines IH]; intros t t' H; cbn [for_each] in H.
  - injection H as <-. cbn [filter List.map]. rewrite !app_nil_r.
    repeat split.
  - apply bind_return_inv in H. destruct H as ([] & t1 & H1 & H2).
    apply process_line_records in H1. destruct H1 as (S1 & E1 & R1 & M1).
    apply IH in H2. destruct H2 as (S2 & E2 & R2 & M2).
    rewrite S2, E2, R2, M2, S1, E1, R1, M1. cbn [filter].
    assert (N : is_ok l = true -> is_not_ok l = false)
      by (unfold is_not_ok; intros ->; reflexivity).
    assert (T1 : is_ok l = true ->
                 prefixed (strip l) (emoji t success) = themed (emoji t) l)
      by (unfold themed; intros ->; reflexivity).
    assert (T2 : is_ok l = false ->
                 prefixed (strip l) (emoji t failure) = themed (emoji t) l)
      by (unfold themed; intros ->; reflexivity).
    destruct (is_ok l) eqn:Eo.
    + rewrite (N eq_refl), (T1 eq_refl). cbn [orb List.map].
      rewrite <- ?app_assoc, ?app_nil_r. repeat split.
    + rewrite (T2 eq_refl).
      destruct (is_not_ok l) eqn:En; cbn [orb List.map];
        rewrite <- ?app_assoc, ?app_nil_r; repeat split.
Qed.

(** X6: after a drain that returned, the records are the input
    classified, in the order of the input: [successes] holds a record
    for each line whose trimmed text begins with "ok", [errors] one
    for each other line that begins with "not ok", [results] one for
    each line of either kind; a record is the trimmed line prefixed
    by the glyph of its class in the table of the run. *)
Theorem drain_records (ascii_flag : bool) (lines : list str) (t : Tapper) :
  drain ud lines (fresh ascii_flag) = (Return tt, t) ->
  let th := if ascii_flag then ascii_table else emoji_table in
  successes t = List.map (themed th) (filter is_ok lines)
  /\ errors t = List.map (themed th) (filter is_not_ok lines)
  /\ results t
     = List.map (themed th) (filter (fun l => is_ok l || is_not_ok l) lines).
Proof.
  intros H. apply drain_records_from in H.
  destruct H as (S & E & R & _). rewrite S, E, R.
  destruct ascii_flag; repeat split.
Qed.

(** ** Counts *)

Definition counted (t : Tapper) : Prop :=
  length (results t) = (length (successes t) + length (errors t))%nat
  /\ (length (numbers t) <= length (results t))%nat.

Lemma found_number_numbers_le tok t :
  (length (numbers t) <= length (numbers (snd (found_number ud tok t)))
   <= S (length (numbers t)))%nat.
Proof.
  unfold found_number. run_monad.
  destruct t as [e s rs n rg te ec em asc out]; fields.
  destruct (int ud tok) as [k|]; fields;
    destruct (Nat.eqb (length rg) 0); fields;
    try destruct (negb _); fields;
    match goal with
    | |- context [value_in ?v n] => destruct (value_in v n)
    end; fields; rewrite ?length_app; cbn [length]; lia.
Qed.

Lemma snd_found_number_then {B} tok (k : M B) u :
  snd ((found_number ud tok ;; k) u) = snd (k (snd (found_number ud tok u))).
Proof.
  unfold bind. pose proof (found_number_returns ud tok u) as H.
  destruct (found_number ud tok u) as [[[]|e] v]; [reflexivity|].
  discriminate H.
Qed.

Lemma counted_process_line line t :
  counted t -> counted (snd (process_line ud line t)).
Proof.
  intros [H1 H2]. rewrite process_line_cases.
  assert (K : forall tok u,
             length (results u) = (length (successes u) + length (errors u))%nat ->
             (S (length (numbers u)) <= length (results u))%nat ->
             counted (snd ((found_number ud tok ;; range_and_echo ud line) u))).
  { intros tok u U1 U2. rewrite snd_found_number_then.
    destruct (range_and_echo_frame ud line (snd (found_number ud tok u)))
      as ((R1 & R2 & R3 & _) & R4).
    destruct (found_number_frame ud tok u) as ((F1 & F2 & F3 & _) & _).
    pose proof (found_number_numbers_le tok u) as L.
    unfold counted. rewrite R1, R2, R3, R4, F1, F2, F3. lia. }
  destruct (startswith (lit "ok") (strip line)).
  - destruct (nth_error (split (strip line)) 1) as [tok|];
      [|split; assumption].
    cbv zeta. apply K; destruct t; fields; cbn [results successes errors numbers] in *;
      rewrite !length_app; cbn [length]; lia.
  - destruct (startswith (lit "not ok") (strip line)).
    + destruct (nth_error (split (strip line)) 2) as [tok|];
        [|split; assumption].
      cbv zeta. apply K; destruct t; fields; cbn [results successes errors numbers] in *;
        rewrite !length_app; cbn [length]; lia.
    + destruct (range_and_echo_frame ud line t) as ((R1 & R2 & R3 & _) & R4).
      unfold counted. rewrite R1, R2, R3, R4. split; assumption.
Qed.

Lemma counted_drain lines t : counted t -> counted (snd (drain ud lines t)).
Proof.
  unfold drain. apply (keeps_for_each (P := counted)).
  intros line u. apply counted_process_line.
Qed.

(** X7: after any drain of a new object, returned or raised, there
    are as many results as successes and failures together and no
    more seen numbers than results.  So the third check of [finalize]
    comes down to the results outnumbering the range, and its message
    always shows the number of results. *)
Theorem counts_after_drain (ascii_flag : bool) (lines : list str) :
  let t := snd (drain ud lines (fresh ascii_flag)) in
  length (results t) = (length (successes t) + length (errors t))%nat
  /\ (length (numbers t) <= length (results t))%nat
  /\ finalize_messages t
     = (if Nat.leb (length (range t)) 0
        then [lit "No test range found"] else [])
       ++ (if Nat.leb (length (results t)) 0
           then [lit "No test results found"] else [])
       ++ (if Nat.ltb (length (range t)) (length (results t))
           then [lit "More test results than possible for test range: "
                 ++ str_of_int (Z.of_nat (length (results t))) ++ lit "/"
                 ++ str_of_int (Z.of_nat (length (range t)))]
           else []).
Proof.
  cbv zeta.
  assert (C : counted (snd (drain ud lines (fresh ascii_flag)))).
  { apply counted_drain. destruct ascii_flag; split; cbn; lia. }
  destruct C as [C1 C2]. split; [exact C1|]. split; [exact C2|].
  unfold finalize_messages.
  rewrite (Nat.max_r _ _ C2).
  replace (Nat.ltb (length (range (snd (drain ud lines (fresh ascii_flag)))))
                   (length (numbers (snd (drain ud lines (fresh ascii_flag)))))
           || Nat.ltb (length (range (snd (drain ud lines (fresh ascii_flag)))))
                      (length (results (snd (drain ud lines (fresh ascii_flag))))))%bool
    with (Nat.ltb (length (range (snd (drain ud lines (fresh ascii_flag)))))
                  (length (results (snd (drain ud lines (fresh ascii_flag)))))).
  - reflexivity.
  - destruct (Nat.ltb_spec
                (length (range (snd (drain ud lines (fresh ascii_flag)))))
                (length (numbers (snd (drain ud lines (fresh ascii_flag))))));
      destruct (Nat.ltb_spec
                  (length (range (snd (drain ud lines (fresh ascii_flag)))))
                  (length (results (snd (drain ud lines (fresh ascii_flag))))));
      cbn [orb]; try reflexivity; lia.
Qed.

(** ** Before and after [finalize] *)

Lemma fresh_error_count ascii_flag : error_count (fresh ascii_flag) = -1.
Proof. destruct ascii_flag; reflexivity. Qed.

(** X8: draining never sets [error_count]: on the object of any
    drained input that was not finalized, [exit_code] fails its
    assertion, and so does [summarize], which has by then replaced
    the protocol errors by their prefixed form. *)
Theorem unfinalized_asserts (ascii_flag : bool) (lines : list str) :
  let t := snd (drain ud lines (fresh ascii_flag)) in
  error_count t = -1
  /\ exit_code t = (Raise AssertionError, t)
  /\ summarize t
     = (Raise AssertionError,
        with_tap_errors
          (List.map (fun x => prefixed x (emoji t disaster))) t).
Proof.
  cbv zeta.
  pose proof (grows_error_count (grows_drain lines (fresh ascii_flag))) as H.
  rewrite fresh_error_count in H.
  split; [exact H|]. split.
  - unfold exit_code. run_monad. rewrite H. reflexivity.
  - unfold summarize. run_monad.
    destruct (snd (drain ud lines (fresh ascii_flag))); fields.
    cbn [error_count] in H. rewrite H. reflexivity.
Qed.

Lemma drain_raise_kind (lines : list str) : forall (t : Tapper) (e : exn),
  fst (drain ud lines t) = Raise e -> e = IndexError \/ e = ValueError.
Proof.
  unfold drain.
  induction lines as [|l lines IH]; intros t e H; cbn [for_each] in H.
  - discriminate H.
  - unfold bind in H. destruct (process_line_outcome l t) as [Ho _].
    destruct (process_line ud l t) as [[[]|e1] t1]; cbn [fst] in Ho, H.
    + apply (IH t1 e H).
    + injection H as <-. unfold raised in Ho. cbv zeta in Ho.
      repeat match type of Ho with
             | context [if ?b then _ else _] => destruct b
             | context [match ?l with [] => _ | _ :: _ => _ end] => destruct l
             end; cbn in Ho; try discriminate Ho; injection Ho as ->; auto.
Qed.

Lemma main_raise (ascii_flag : bool) (lines : list str) (e : exn) (t1 : Tapper) :
  drain ud lines (fresh ascii_flag) = (Raise e, t1) ->
  main ud ascii_flag lines init = (Raise e, t1).
Proof.
  intros H. rewrite main_report. unfold report, bind. rewrite H. reflexivity.
Qed.

(** X9: [main] ends as the drain of its input ends.  When the drain
    returns, [main] returns the smaller of 100 and the number of
    failures plus protocol errors, those of [finalize] included.
    When a line raises, [main] raises the same exception, which is
    [IndexError] or [ValueError], and does nothing after it: no
    summary is printed. *)
Theorem main_outcome (ascii_flag : bool) (lines : list str) :
  match drain ud lines (fresh ascii_flag) with
  | (Return _, t1) =>
      fst (main ud ascii_flag lines init)
      = Return (Z.min (Z.of_nat (length (errors t1))
                       + Z.of_nat (length (tap_errors t1))
                       + Z.of_nat (length (finalize_messages t1))) 100)
  | (Raise e, t1) =>
      main ud ascii_flag lines init = (Raise e, t1)
      /\ (e = IndexError \/ e = ValueError)
  end.
Proof.
  destruct (drain ud lines (fresh ascii_flag)) as [[[]|e] t1] eqn:E.
  - rewrite (main_exit ud ascii_flag lines E). rewrite finalize_run.
    destruct t1; fields. rewrite length_app. do 2 f_equal. lia.
  - split; [apply main_raise; exact E|].
    apply (drain_raise_kind lines (fresh ascii_flag)). rewrite E. reflexivity.
Qed.

(** X10: on a finalized object the exit code is 0 exactly when there
    is no failure and no protocol error, neither from the lines nor
    from [finalize]: the range is not empty, there is a result, and
    neither the results nor the seen numbers outnumber the range. *)
Theorem exit_zero_iff (t0 : Tapper) :
  let t := snd (finalize t0) in
  exit_code t = (Return 0, t)
  <-> (errors t0 = [] /\ tap_errors t0 = []
       /\ (0 < length (range t0) /\ 0 < length (results t0)
           /\ length (numbers t0) <= length (range t0)
           /\ length (results t0) <= length (range t0))%nat).
Proof.
  cbv zeta.
  pose proof (finalize_error_count t0) as Hc.
  rewrite exit_code_run by lia.
  assert (Hm : finalize_messages t0 = [] <->
               (0 < length (range t0) /\ 0 < length (results t0)
                /\ length (numbers t0) <= length (range t0)
                /\ length (results t0) <= length (range t0))%nat).
  { unfold finalize_messages.
    destruct (Nat.leb_spec (length (range t0)) 0);
      destruct (Nat.leb_spec (length (results t0)) 0);
      destruct (Nat.ltb_spec (length (range t0)) (length (numbers t0)));
      destruct (Nat.ltb_spec (length (range t0)) (length (results t0)));
      cbn [orb app]; split; intros Hx; try discriminate Hx;
      try reflexivity; lia. }
  rewrite <- Hm.
  assert (He : error_count (snd (finalize t0))
               = Z.of_nat (length (errors t0))
                 + Z.of_nat (length (tap_errors t0))
                 + Z.of_nat (length (finalize_messages t0))).
  { rewrite finalize_run. destruct t0; fields. rewrite length_app. lia. }
  split.
  - intros H. injection H as H.
    assert (Z0 : error_count (snd (finalize t0)) = 0) by lia.
    rewrite He in Z0.
    destruct (errors t0), (tap_errors t0), (finalize_messages t0);
      cbn [length] in Z0; try lia. repeat split.
  - intros (E1 & E2 & E3). rewrite He, E1, E2, E3. reflexivity.
Qed.

(** X11: draining a concatenated input is draining its first part
    and then, unless a line of it raised, its second part. *)
Theorem drain_app (l1 l2 : list str) (t : Tapper) :
  drain ud (l1 ++ l2) t = (drain ud l1 ;; drain ud l2) t.
Proof.
  unfold drain. revert t. induction l1 as [|l l1 IH]; intros t.
  - cbn [app for_each]. reflexivity.
  - cbn [app for_each]. unfold bind in *.
    destruct (process_line ud l t) as [[[]|e] t1]; [|reflexivity].
    apply IH.
Qed.

(** ** The lines of the summary *)

(** The three counts, each followed by a word or glyph. *)
Definition counts_text (t : Tapper) (w_ok w_not_ok w_tap : str) : str :=
  str_of_int (Z.of_nat (length (successes t))) ++ lit " " ++ w_ok
  ++ lit "  |  "
  ++ str_of_int (Z.of_nat (length (errors t))) ++ lit " " ++ w_not_ok
  ++ lit "  |  "
  ++ str_of_int (Z.of_nat (length (tap_errors t))) ++ lit " " ++ w_tap.

Definition verdict_text (t : Tapper) : str :=
  if error_count t =? 0 then lit "All tests successful - "
  else if negb (nonempty (successes t))
          && Nat.eqb (length (results t)) (length (range t))
       then lit "All tests failed - "
       else lit "Some tests failed - ".

Definition verdict_glyph (t : Tapper) : key :=
  if error_count t =? 0 then great_success
  else if nonempty (tap_errors t) || negb (nonempty (successes t))
       then catastrophe
       else disaster.

(** X12: on a finalized object whose table keeps "o" and "t" out of
    the failure glyph and "t" out of the success glyph (both tables
    of the program do), the summary ends with an empty line, the
    line "Summary: S ok  |  F not ok  |  E tap errors", and the
    verdict, in which the three substitutions have turned that text
    into "S <success>  |  F <failure>  |  E <tap_error>": "not ok" is
    not hit by the substitution of "ok", nor "errors" by it.  Before
    them come the results, the failures and the prefixed protocol
    errors, each block only when it is not empty. *)
Theorem summary_lines (t : Tapper) :
  0 <= error_count t -> plain_glyphs (emoji t) ->
  let th := emoji t in
  fst (summarize t)
  = Return
      ((if nonempty (results t)
        then [] :: prefixed (lit "TAP Test results:") (th tap) :: results t
        else [])
       ++ (if nonempty (errors t)
           then [] :: prefixed (lit "Test failures: ") (th attention)
                   :: errors t
           else [])
       ++ (if nonempty (tap_errors t)
           then prefixed (lit "Protocol error(s) were found:") (th attention)
                :: List.map (fun x => prefixed x (th disaster)) (tap_errors t)
           else [])
       ++ [ [];
            lit "Summary: "
            ++ counts_text t (lit "ok") (lit "not ok") (lit "tap errors");
            prefixed
              (verdict_text t
               ++ counts_text t (th success) (th failure) (th tap_error))
              (th (verdict_glyph t)) ]).
Proof.
  intros H0 Hp. cbv zeta. unfold summarize. run_monad.
  destruct t as [e s rs n rg te ec em asc out]; fields.
  cbn [error_count emoji] in H0, Hp.
  destruct (Z.leb_spec 0 ec) as [_|]; [|lia]. cbn [fst].
  rewrite emoji_summary_shape by first [assumption | apply count_decimal].
  unfold counts_text, verdict_text, verdict_glyph. fields.
  rewrite length_map.
  replace (nonempty (List.map (fun x => prefixed x (em disaster)) te))
    with (nonempty te) by (destruct te; reflexivity).
  destruct (ec =? 0);
    [|destruct (nonempty te || negb (nonempty s))%bool;
      destruct (negb (nonempty s) && Nat.eqb (length rs) (length rg))%bool];
    unfold prefixed; eval_lit; repeat (rewrite <- ?app_assoc; cbn [app]);
    reflexivity.
Qed.

(** ** Results without a range *)



End MoreMethods.

(** ** The further properties at given inputs *)





(** X6 on the example, drained with the ASCII table. *)
Lemma drain_records_witness :
  let t := snd (drain ascii_only basic (fresh true)) in
  drain ascii_only basic (fresh true) = (Return tt, t)
  /\ results t
     = List.map (themed ascii_table)
         (filter (fun l => is_ok l || is_not_ok l) basic).
Proof.
  cbv zeta.
  assert (H : drain ascii_only basic (fresh true)
              = (Return tt, snd (drain ascii_only basic (fresh true))))
    by (vm_compute; reflexivity).
  split; [exact H|].
  destruct (@drain_records ascii_only true basic _ H) as (_ & _ & K).
  exact K.
Defined.

(** X10 on a run of two successes. *)
Lemma exit_zero_iff_witness :
  let t0 := snd (drain ascii_only
                   [lit "1..2" ++ nl; lit "ok 1" ++ nl; lit "ok 2" ++ nl]
                   init) in
  exit_code (snd (finalize t0)) = (Return 0, snd (finalize t0)).
Proof.
  cbv zeta.
  apply (proj2 (exit_zero_iff
                  (snd (drain ascii_only
                          [lit "1..2" ++ nl; lit "ok 1" ++ nl;
                           lit "ok 2" ++ nl] init)))).
  split; [reflexivity|]. split; [reflexivity|].
  change (0 < 2 /\ 0 < 2 /\ 2 <= 2 /\ 2 <= 2)%nat. lia.
Defined.

(** X12 on the finalized example: the last line is the verdict of
    the module documentation. *)
Lemma summary_lines_witness :
  let t := snd (finalize (snd (drain ascii_only basic init))) in
  0 <= error_count t
  /\ nth_error
       (match fst (summarize t) with Return l => l | Raise _ => [] end) 12
     = Some ([128293%N] ++ lit "  | Some tests failed - 2 " ++ [9989%N]
             ++ lit "  |  2 " ++ [10060%N] ++ lit "  |  0 " ++ [128689%N]).
Proof.
  cbv zeta.
  assert (H0 : 0 <= error_count
                     (snd (finalize (snd (drain ascii_only basic init)))))
    by (vm_compute; discriminate).
  assert (Hp : plain_glyphs
                 (emoji (snd (finalize (snd (drain ascii_only basic init))))))
    by (change (plain_glyphs emoji_table); unfold plain_glyphs;
        cbn [emoji_table]; repeat split; repeat constructor; lia).
  split; [exact H0|].
  rewrite (@summary_lines _ H0 Hp). vm_compute. reflexivity.
Defined.

